(** * Market Area Crawler: keyword tagging, article classification and
      report aggregation

    A shallow embedding of [src/main.py] (class [MarketAreaCrawler]) and of
    the shipped configuration [src/config.py], with the properties of the
    classification-and-aggregation pipeline.

    Modelling conventions.
    - A Python [str] is the list of its code points ([list N]); slicing,
      [len] and the operator [in] then read as they do in Python.
    - [str.lower], the HTML and network helpers, the sentiment library and
      the clock are outside the repository: they are parameters of the
      development (Section variables).
    - A finite Python [float] is represented by its exact value, a rational
      ([Q]); comparisons of floats are then comparisons of rationals. The
      arithmetic of the report is given twice: with exact rationals (the
      section [Aggregator]), which is enough for the keys, the counts, the
      order and the range of the averages, and as the interpreter computes
      it, every operation rounded to the nearest binary64 number (the
      module [Binary64]), for the statements about the value of an average
      and of a trend. The two give the same keys and counts
      ([report_counts_agree]).
    - [generate_market_report] is also given as a program on the store of
      objects (the module [Heap]), for the statements about what it
      changes.
    - The dictionaries of the report are finite maps ([gmap]); the two
      keyword dictionaries, which the tagger iterates in insertion order,
      are association lists. *)

From Stdlib Require Import Ascii String QArith Qround Qabs Lqa.
From stdpp Require Import gmap list fin_maps.

Local Open Scope Z_scope.
Local Open Scope nat_scope.

(** ** Strings *)

Definition str : Type := list N.

(** [lit s] is the Python literal whose characters are the ASCII characters
    of [s]. *)
Definition lit (s : string) : str :=
  List.map N_of_ascii (list_ascii_of_string s).

(** U+00E0, LATIN SMALL LETTER A WITH GRAVE. *)
Definition a_grave : N := 224%N.

(** [x.startswith(k)] *)
Fixpoint startswith (k x : str) : bool :=
  match k, x with
  | [], _ => true
  | _ :: _, [] => false
  | c :: k', d :: x' => if N.eqb c d then startswith k' x' else false
  end.

(** [k in x] on strings: [k] occurs in [x] as a contiguous run. *)
Fixpoint str_in (k x : str) : bool :=
  match x with
  | [] => startswith k []
  | _ :: x' => if startswith k x then true else str_in k x'
  end.

(** [s[:n]] *)
Definition slice_to (n : nat) (s : str) : str := take n s.

(** A lowercasing of the ASCII and Latin-1 letters, code point by code
    point; an instance of the parameter [lower] used to run the model. *)
Definition lower_char (c : N) : N :=
  if ((65 <=? c) && (c <=? 90))%N then (c + 32)%N
  else if ((192 <=? c) && (c <=? 222) && negb (c =? 215))%N then (c + 32)%N
  else c.

Definition latin_lower (s : str) : str := List.map lower_char s.

(** ** Data model *)

(** [NewsArticle] (a dataclass). [date] is the reading of the clock at
    construction; [market_areas] and [locations] have their annotated type
    [List[str]]. *)
Record NewsArticle (datetime : Type) := mkNewsArticle {
  title : str;
  content : str;
  url : str;
  date : option datetime;
  market_areas : list str;
  locations : list str;
  sentiment_score : Q
}.
Arguments mkNewsArticle {datetime}.
Arguments title {datetime}.
Arguments content {datetime}.
Arguments url {datetime}.
Arguments date {datetime}.
Arguments market_areas {datetime}.
Arguments locations {datetime}.
Arguments sentiment_score {datetime}.

(** The state of a [MarketAreaCrawler] that the pipeline reads. *)
Record MarketAreaCrawler := mkCrawler {
  self_market_areas : list str;
  self_locations : list str;
  market_keywords : list (str * list str);
  location_keywords : list (str * list str)
}.

(** The two dictionaries written in [__init__]. *)
Definition init_market_keywords : list (str * list str) :=
  [ (lit "tecnologia",
      [lit "tech"; lit "tecnologia"; lit "software"; lit "ai";
       lit "intelligenza artificiale"; lit "startup"]);
    (lit "finanza",
      [lit "finanza"; lit "banking"; lit "banche"; lit "investimenti";
       lit "mercati finanziari"]);
    (lit "energia",
      [lit "energia"; lit "petrolio"; lit "gas"; lit "rinnovabili";
       lit "solare"; lit "eolico"]);
    (lit "automotive",
      [lit "auto"; lit "automotive"; lit "veicoli"; lit "trasporti";
       lit "mobilit" ++ [a_grave]]);
    (lit "immobiliare",
      [lit "immobiliare"; lit "real estate"; lit "case";
       lit "propriet" ++ [a_grave]; lit "edilizia"]) ].

Definition init_location_keywords : list (str * list str) :=
  [ (lit "italia",
      [lit "italia"; lit "italy"; lit "romano"; lit "milano"; lit "napoli";
       lit "torino"]);
    (lit "europa",
      [lit "europa"; lit "europe"; lit "ue"; lit "european union";
       lit "bruxelles"]);
    (lit "usa",
      [lit "usa"; lit "america"; lit "stati uniti"; lit "washington";
       lit "new york"]);
    (lit "cina",
      [lit "cina"; lit "china"; lit "beijing"; lit "shanghai";
       lit "hong kong"]);
    (lit "giappone",
      [lit "giappone"; lit "japan"; lit "tokyo"; lit "osaka"]);
    (lit "germania",
      [lit "germania"; lit "germany"; lit "berlino"; lit "monaco"]) ].

(** [config.MARKET_AREAS] and [config.LOCATIONS], the lists that
    [run_crawler.py] passes to the crawler. *)
Definition MARKET_AREAS : list str :=
  [lit "tecnologia"; lit "finanza"; lit "energia"; lit "automotive";
   lit "immobiliare"; lit "salute"; lit "turismo"].

Definition LOCATIONS : list str :=
  [lit "italia"; lit "europa"; lit "usa"; lit "cina"; lit "giappone";
   lit "germania"; lit "francia"; lit "regno unito"].

(** ** Keyword tagger *)

(** The inner loop: is some keyword of the list in the lowered text? *)
Fixpoint any_keyword_in (keywords : list str) (text_lower : str) : bool :=
  match keywords with
  | [] => false
  | keyword :: rest =>
      if str_in keyword text_lower then true
      else any_keyword_in rest text_lower
  end.

(** The outer loop over [items()] of a keyword dictionary, appending the
    categories that are tracked and have a keyword in the text. *)
Fixpoint scan_keywords (items : list (str * list str)) (tracked : list str)
    (text_lower : str) : list str :=
  match items with
  | [] => []
  | (category, keywords) :: rest =>
      if bool_decide (category ∈ tracked) then
        if any_keyword_in keywords text_lower
        then category :: scan_keywords rest tracked text_lower
        else scan_keywords rest tracked text_lower
      else scan_keywords rest tracked text_lower
  end.

Section Tagger.

(** [str.lower] *)
Variable lower : str -> str.

(** [MarketAreaCrawler.__init__] *)
Definition init (market_areas locations : list str) : MarketAreaCrawler :=
  {| self_market_areas := List.map lower market_areas;
     self_locations := List.map lower locations;
     market_keywords := init_market_keywords;
     location_keywords := init_location_keywords |}.

Definition find_market_areas (self : MarketAreaCrawler) (text : str)
    : list str :=
  let text_lower := lower text in
  scan_keywords (market_keywords self) (self_market_areas self) text_lower.

Definition find_locations (self : MarketAreaCrawler) (text : str)
    : list str :=
  let text_lower := lower text in
  scan_keywords (location_keywords self) (self_locations self) text_lower.

End Tagger.

(** ** Numbers *)

(** [x < y] on floats. *)
Definition Qlt_bool (x y : Q) : bool := negb (Qle_bool y x).

(** The integer nearest to [q], a tie going to the even neighbour. *)
Definition round_half_even (q : Q) : Z :=
  let fl := Qfloor q in
  match (q - inject_Z fl ?= 1 # 2)%Q with
  | Lt => fl
  | Gt => (fl + 1)%Z
  | Eq => if Z.even fl then fl else (fl + 1)%Z
  end.

(** [round(x, ndigits)] on exact values: the multiple of [10^-ndigits]
    nearest to [x], a tie going to the even multiple. On a float the
    interpreter rounds the exact value of the float this way and returns
    the float nearest to the result ([float_round] below). *)
Definition py_round (x : Q) (ndigits : nat) : Q :=
  let p := inject_Z (10 ^ Z.of_nat ndigits) in
  Qred (inject_Z (round_half_even (x * p)) / p).

(** The conditional expression stored under ['sentiment_trend']. *)
Definition trend (avg_sentiment : Q) : str :=
  if Qlt_bool 60 avg_sentiment then lit "positive"
  else if Qlt_bool avg_sentiment 40 then lit "negative"
  else lit "neutral".

(** ** Report *)

(** The record stored for a market or for a location. *)
Record Stats := mkStats {
  article_count : nat;
  average_sentiment : Q;
  sentiment_trend : str
}.

(** The record stored for a (market, location) pair. *)
Record Cell := mkCell {
  cell_market : str;
  cell_location : str;
  cell_article_count : nat;
  cell_average_sentiment : Q;
  cell_sentiment_trend : str
}.

Record Report := mkReport {
  timestamp : str;
  total_articles : nat;
  report_markets : gmap str Stats;
  report_locations : gmap str Stats;
  market_location_matrix : gmap str Cell
}.

(** [f"{market}_{location}"] *)
Definition matrix_key (market location : str) : str :=
  market ++ lit "_" ++ location.

Section Aggregator.

Context {datetime : Type}.
Abbreviation Article := (NewsArticle datetime).

(** [sum(a.sentiment_score for a in xs)]: from 0, left to right, in exact
    arithmetic ([Binary64.sum_sentiment] rounds every partial sum). *)
Definition sum_sentiment (xs : list Article) : Q :=
  foldl (fun acc a => acc + sentiment_score a)%Q 0%Q xs.

(** [sum(...) / len(xs)], in exact arithmetic. *)
Definition avg_sentiment (xs : list Article) : Q :=
  (sum_sentiment xs / inject_Z (Z.of_nat (length xs)))%Q.

(** [[a for a in articles if market in a.market_areas]] *)
Definition market_articles (market : str) (articles : list Article)
    : list Article :=
  filter (fun a => market ∈ market_areas a) articles.

(** [[a for a in articles if location in a.locations]] *)
Definition location_articles (location : str) (articles : list Article)
    : list Article :=
  filter (fun a => location ∈ locations a) articles.

(** [[a for a in articles
      if market in a.market_areas and location in a.locations]] *)
Definition relevant_articles (market location : str)
    (articles : list Article) : list Article :=
  filter (fun a => market ∈ market_areas a ∧ location ∈ locations a)
    articles.

(** The body of [if xs:] in the first two loops; [None] when the list is
    empty and nothing is stored. *)
Definition stats_of (xs : list Article) : option Stats :=
  match xs with
  | [] => None
  | _ :: _ =>
      Some {| article_count := length xs;
              average_sentiment := py_round (avg_sentiment xs) 2;
              sentiment_trend := trend (avg_sentiment xs) |}
  end.

(** The body of [if relevant_articles:] in the matrix loop. *)
Definition cell_of (market location : str) (xs : list Article)
    : option Cell :=
  match xs with
  | [] => None
  | _ :: _ =>
      Some {| cell_market := market;
              cell_location := location;
              cell_article_count := length xs;
              cell_average_sentiment := py_round (avg_sentiment xs) 2;
              cell_sentiment_trend := trend (avg_sentiment xs) |}
  end.

(** [d[key] = value] when there is a value to store. *)
Definition store {V : Type} (d : gmap str V) (key : str) (value : option V)
    : gmap str V :=
  match value with
  | Some v => <[key := v]> d
  | None => d
  end.

(** [# Analisi per mercato] *)
Definition markets_loop (self : MarketAreaCrawler)
    (articles : list Article) : gmap str Stats :=
  foldl (fun d market =>
           store d market (stats_of (market_articles market articles)))
        ∅ (self_market_areas self).

(** [# Analisi per località] *)
Definition locations_loop (self : MarketAreaCrawler)
    (articles : list Article) : gmap str Stats :=
  foldl (fun d location =>
           store d location (stats_of (location_articles location articles)))
        ∅ (self_locations self).

(** [# Matrice mercato-località] *)
Definition matrix_loop (self : MarketAreaCrawler)
    (articles : list Article) : gmap str Cell :=
  foldl (fun d market =>
           foldl (fun d location =>
                    let key := matrix_key market location in
                    store d key
                      (cell_of market location
                         (relevant_articles market location articles)))
                 d (self_locations self))
        ∅ (self_market_areas self).

End Aggregator.

(** ** Article classifier, report assembly and the run *)

(** An element of the list returned by [extract_articles_from_page]: the
    dictionary with keys ['title'], ['url'] and ['content']. *)
Record ArticleData := mkArticleData {
  data_title : str;
  data_url : str;
  data_content : str
}.

(** Truth value of [Optional[str]]: [None] and the empty string are false. *)
Definition truthy (o : option str) : bool :=
  match o with
  | Some (_ :: _) => true
  | _ => false
  end.

(** What [generate_market_report] can reach: the list object [articles] and
    the outside world (the clock). *)
Record Mem (W datetime : Type) := mkMem {
  mem_articles : list (NewsArticle datetime);
  mem_world : W
}.
Arguments mkMem {W datetime}.
Arguments mem_articles {W datetime}.
Arguments mem_world {W datetime}.

Section Pipeline.

(** [str.lower] *)
Variable lower : str -> str.

(** The outside world (network and clock) and the type of [datetime]. *)
Variables W datetime : Type.

(** [datetime.now()] and [datetime.isoformat] *)
Variable now : W -> datetime * W.
Variable isoformat : datetime -> str.

(** [fetch_page]: the page, or [None] on a status other than 200 or on an
    exception, which it logs and swallows. *)
Variable fetch_page : str -> W -> option str * W.

(** BeautifulSoup: [extract_text_from_html], [extract_articles_from_page]. *)
Variable extract_text_from_html : str -> str.
Variable extract_articles_from_page : str -> str -> list ArticleData.

(** TextBlob: [analyze_sentiment], which returns 50.0 on an exception. *)
Variable analyze_sentiment : str -> Q.

Abbreviation Article := (NewsArticle datetime).

(** Lines 217-235 of [analyze_website]: the article built from a
    candidate whose text is [content], or [None] when it is dropped. *)
Definition classify (self : MarketAreaCrawler) (article_data : ArticleData)
    (content : str) (w : W) : option Article * W :=
  let found_markets := find_market_areas lower self content in
  let found_locations := find_locations lower self content in
  match found_markets, found_locations with
  | _ :: _, _ :: _ =>
      let sentiment_score := analyze_sentiment content in
      let '(d, w) := now w in
      (Some {| title := data_title article_data;
               content := slice_to 1000 content;
               url := data_url article_data;
               market_areas := found_markets;
               locations := found_locations;
               sentiment_score := sentiment_score;
               date := Some d |}, w)
  | _, _ => (None, w)
  end.

(** Lines 210-215: the text of a candidate, the downloaded page or else
    the preview. *)
Definition candidate_content (article_data : ArticleData) (w : W)
    : str * W :=
  let '(article_html, w) := fetch_page (data_url article_data) w in
  if truthy article_html
  then (extract_text_from_html (default [] article_html), w)
  else (data_content article_data, w).

(** One turn of the loop over [articles_data]. The [try] around the body
    skips a candidate on which a helper raises; the helpers are total
    functions here, so there is no such turn. *)
Definition analyze_candidate (self : MarketAreaCrawler)
    (acc : list Article * W) (article_data : ArticleData)
    : list Article * W :=
  let '(analyzed_articles, w) := acc in
  let '(content, w) := candidate_content article_data w in
  match classify self article_data content w with
  | (Some article, w) => (analyzed_articles ++ [article], w)
  | (None, w) => (analyzed_articles, w)
  end.

Definition analyze_website (self : MarketAreaCrawler) (url : str) (w : W)
    : list Article * W :=
  let '(html, w) := fetch_page url w in
  if truthy html then
    let articles_data := extract_articles_from_page (default [] html) url in
    foldl (analyze_candidate self) ([], w) articles_data
  else ([], w).

Definition generate_market_report (self : MarketAreaCrawler)
    (m : Mem W datetime) : Report * Mem W datetime :=
  let articles := mem_articles m in
  let '(d, w) := now (mem_world m) in
  ({| timestamp := isoformat d;
      total_articles := length articles;
      report_markets := markets_loop self articles;
      report_locations := locations_loop self articles;
      market_location_matrix := matrix_loop self articles |},
   {| mem_articles := articles; mem_world := w |}).

(** The report alone, for a list of articles and a state of the world. *)
Definition report_of (self : MarketAreaCrawler) (articles : list Article)
    (w : W) : Report :=
  fst (generate_market_report self
         {| mem_articles := articles; mem_world := w |}).

(** The loop over the sites in [run_analysis] and in [main]:
    [all_articles.extend(articles)]. *)
Definition crawl (self : MarketAreaCrawler) (websites : list str) (w : W)
    : list Article * W :=
  foldl (fun '(all_articles, w) website =>
           let '(articles, w) := analyze_website self website w in
           (all_articles ++ articles, w))
        ([], w) websites.

(** [run_analysis] of [run_crawler.py], up to the report: [None] is the
    branch that prints that no relevant article was found. *)
Definition run_analysis (websites : list str) (w : W)
    : option Report * W :=
  let self := init lower MARKET_AREAS LOCATIONS in
  let '(all_articles, w) := crawl self websites w in
  match all_articles with
  | [] => (None, w)
  | _ :: _ =>
      let '(report, m) :=
        generate_market_report self
          {| mem_articles := all_articles; mem_world := w |} in
      (Some report, mem_world m)
  end.

End Pipeline.

(** ** Specification vocabulary *)

(** [k] occurs in [text] as a case-insensitive substring: the lowered
    keyword is a contiguous run of the lowered text. *)
Definition occurs_ignoring_case (lower : str -> str) (k text : str) : Prop :=
  ∃ pre post : str, lower text = pre ++ lower k ++ post.

(** The keys of a keyword dictionary. *)
Definition keys (items : list (str * list str)) : list str := items.*1.

(** The vocabulary a tagger works with: the entries of the keyword
    dictionary whose category is tracked. *)
Definition vocabulary (items : list (str * list str)) (tracked : list str)
    : list (str * list str) :=
  filter (fun item => item.1 ∈ tracked) items.

(** The arithmetic mean of a list of numbers. *)
Definition arithmetic_mean (values : list Q) : Q :=
  (foldr Qplus 0 values / inject_Z (Z.of_nat (length values)))%Q.

(** Every keyword of the two dictionaries of a crawler is in lower case. *)
Definition keywords_lowered (lower : str -> str) (self : MarketAreaCrawler)
    : Prop :=
  ∀ category keywords k,
    (category, keywords) ∈ market_keywords self ++ location_keywords self →
    k ∈ keywords → lower k = k.

(** The composite key of the tracked pair [(market, location)] is the key
    of no other tracked pair. *)
Definition key_unambiguous (self : MarketAreaCrawler) (market location : str)
    : Prop :=
  ∀ market' location',
    market' ∈ self_market_areas self → location' ∈ self_locations self →
    matrix_key market' location' = matrix_key market location →
    market' = market ∧ location' = location.

(** The count the report shows for a pair: that of the record stored under
    the composite key of the pair, 0 when there is none. *)
Definition matrix_count (r : Report) (market location : str) : nat :=
  match market_location_matrix r !! matrix_key market location with
  | Some cell => cell_article_count cell
  | None => 0
  end.

(** ** A small world to run the model in

    The clock counts its readings; the network serves, at every address but
    ["down"], a page whose text is the address itself; a page lists one
    candidate, itself. *)

Definition demo_now (w : nat) : nat * nat := (w, S w).
Definition demo_isoformat (d : nat) : str := lit "T+" ++ [N.of_nat (48 + d)].
Definition demo_fetch_page (url : str) (w : nat) : option str * nat :=
  (if bool_decide (url = lit "down") then None else Some url, w).
Definition demo_extract_text (html : str) : str := html.
Definition demo_extract_articles (html base_url : str) : list ArticleData :=
  [ {| data_title := lit "headline"; data_url := base_url;
       data_content := slice_to 500 html |} ].
Definition demo_sentiment (text : str) : Q := 50.

Definition demo_classify :=
  classify latin_lower nat nat demo_now demo_sentiment.
Definition demo_analyze_website :=
  analyze_website latin_lower nat nat demo_now demo_fetch_page
    demo_extract_text demo_extract_articles demo_sentiment.
Definition demo_crawl :=
  crawl latin_lower nat nat demo_now demo_fetch_page
    demo_extract_text demo_extract_articles demo_sentiment.
Definition demo_report :=
  report_of nat nat demo_now demo_isoformat.

(** An article with the given score and tags, as the aggregator reads it. *)
Definition tagged (score : Q) (markets locs : list str) : NewsArticle nat :=
  {| title := lit "t"; content := lit "c"; url := lit "u"; date := None;
     market_areas := markets; locations := locs; sentiment_score := score |}.

(** The crawler of [run_crawler.py]. *)
Definition shipped : MarketAreaCrawler :=
  init latin_lower MARKET_AREAS LOCATIONS.

(** Inputs of the examples. *)

(** Two articles on one market, with scores 80 and 40. *)
Definition mean_articles : list (NewsArticle nat) :=
  [ tagged 80 [lit "tecnologia"] [lit "italia"];
    tagged 40 [lit "tecnologia"] [lit "usa"] ].

(** Three articles on one market whose mean, 60.0033..., rounds to 60. *)
Definition rounding_articles : list (NewsArticle nat) :=
  [ tagged 60 [lit "tecnologia"] [lit "italia"];
    tagged 60 [lit "tecnologia"] [lit "italia"];
    tagged (6001 # 100) [lit "tecnologia"] [lit "italia"] ].




(** The same with short names: the pairs (a_b, c) and (a, b_c). *)
Definition overlap_crawler : MarketAreaCrawler :=
  init latin_lower [lit "a_b"; lit "a"] [lit "c"; lit "b_c"].
Definition overlap_first : NewsArticle nat :=
  tagged 10 [lit "a_b"] [lit "c"].
Definition overlap_second : NewsArticle nat :=
  tagged 90 [lit "a"] [lit "b_c"].

(** Markets a, b and locations x, y; one article on a, in x and y. *)
Definition grid_crawler : MarketAreaCrawler :=
  init latin_lower [lit "a"; lit "b"] [lit "x"; lit "y"].
Definition grid_articles : list (NewsArticle nat) :=
  [ tagged 50 [lit "a"] [lit "x"; lit "y"] ].

(** A page of more than 1000 characters that names a market and a
    location. *)
Definition long_page : str := lit "tech in italia " ++ replicate 2000 120%N.

(** ** The helpers around the pipeline

    The functions of [main.py] and [run_crawler.py] that the pipeline calls
    or that consume its result, over what they read of the libraries: a
    polarity for TextBlob, a response for aiohttp, the selected elements
    for BeautifulSoup. *)

(** [analyze_sentiment]. [polarity text] is
    [TextBlob(text).sentiment.polarity], [None] when the library raises.
    The sum and the product are exact here; the interpreter rounds each to
    a float, which can move the score by a hundredth and leaves its range
    and its order as they are. *)
Definition analyze_sentiment (polarity : str -> option Q) (text : str) : Q :=
  match polarity text with
  | Some p =>
      let sentiment := ((p + 1) * 50)%Q in
      py_round sentiment 2
  | None => 50%Q
  end.

(** What [await response.text()] does: a text, a [UnicodeDecodeError] or
    another exception. *)
Inductive TextResult :=
  | TextOk (text : str)
  | TextUnicodeDecodeError
  | TextError.

(** The response of [session.get(url)] as [fetch_page] reads it;
    [response_read] is [None] when [await response.read()] raises. *)
Record Response := mkResponse {
  status : nat;
  response_text : TextResult;
  response_read : option (list Byte.byte)
}.

(** [content.decode('latin-1', errors='ignore')]: a byte is the code point
    of the same number. *)
Definition decode_latin1 (content : list Byte.byte) : str :=
  List.map Byte.to_N content.

(** [fetch_page]. [session_get url w] is the response, [None] when the
    request raises. *)
Definition fetch_page {W : Type}
    (session_get : str -> W -> option Response * W) (url : str) (w : W)
    : option str * W :=
  let '(r, w) := session_get url w in
  match r with
  | None => (None, w)
  | Some response =>
      if Nat.eqb (status response) 200 then
        match response_text response with
        | TextOk text => (Some text, w)
        | TextUnicodeDecodeError =>
            match response_read response with
            | Some content => (Some (decode_latin1 content), w)
            | None => (None, w)
            end
        | TextError => (None, w)
        end
      else (None, w)
  end.

(** The element that [element.find(['h1', 'h2', 'h3', 'a'])] returns. *)
Record TitleElem := mkTitleElem {
  title_name : str;
  title_text : str;
  title_href : option str
}.

(** An element of [soup.select(selector)], as the loop reads it: its tag
    name, [get_text()], [get('href')] and [find(['h1', 'h2', 'h3', 'a'])]. *)
Record Element := mkElement {
  elem_name : str;
  elem_text : str;
  elem_href : option str;
  elem_find : option TitleElem
}.

Definition article_selectors : list str :=
  [lit "article"; lit ".article"; lit ".news-item"; lit ".post";
   lit "h2 a"; lit "h3 a"; lit ".title a"].

(** The title and the link the loop reads from an element; [None] is the
    [continue] of an element with no heading and no link inside. *)
Definition title_and_link (strip : str -> str) (element : Element)
    : option (str * option str) :=
  if bool_decide (elem_name element = lit "a") then
    Some (strip (elem_text element), elem_href element)
  else
    match elem_find element with
    | Some title_elem =>
        Some (strip (title_text title_elem),
              if bool_decide (title_name title_elem = lit "a")
              then title_href title_elem else None)
    | None => None
    end.

(** The dictionary appended for an element, with [if title and link]. *)
Definition candidate_of (strip : str -> str) (urljoin : str -> str -> str)
    (base_url : str) (element : Element) : option ArticleData :=
  match title_and_link strip element with
  | Some (t :: title', Some (c :: link')) =>
      let full_url := urljoin base_url (c :: link') in
      Some {| data_title := t :: title';
              data_url := full_url;
              data_content := slice_to 500 (strip (elem_text element)) |}
  | _ => None
  end.

(** [extract_articles_from_page]. [select html selector] is
    [BeautifulSoup(html, 'html.parser').select(selector)]. *)
Definition extract_articles_from_page
    (select : str -> str -> list Element) (strip : str -> str)
    (urljoin : str -> str -> str) (html base_url : str)
    : list ArticleData :=
  let articles :=
    foldl (fun articles selector =>
             foldl (fun articles element =>
                      match candidate_of strip urljoin base_url element with
                      | Some article => articles ++ [article]
                      | None => articles
                      end)
                   articles (select html selector))
          [] article_selectors in
  take 20 articles.

(** The ['content_preview'] of [run_crawler.py]:
    [content[:200] + '...' if len(content) > 200 else content]. *)
Definition content_preview (content : str) : str :=
  if Nat.ltb 200 (length content)
  then take 200 content ++ lit "..."
  else content.

(** An element of [articles_data] in [run_analysis]. *)
Record ArticleSummary := mkArticleSummary {
  summary_title : str;
  summary_url : str;
  summary_market_areas : list str;
  summary_locations : list str;
  summary_sentiment_score : Q;
  summary_content_preview : str
}.

Definition article_summary {datetime : Type} (article : NewsArticle datetime)
    : ArticleSummary :=
  {| summary_title := title article;
     summary_url := url article;
     summary_market_areas := market_areas article;
     summary_locations := locations article;
     summary_sentiment_score := sentiment_score article;
     summary_content_preview := content_preview (content article) |}.

(** The loop that fills [articles_data]. *)
Definition articles_summary {datetime : Type}
    (all_articles : list (NewsArticle datetime)) : list ArticleSummary :=
  foldl (fun articles_data article =>
           articles_data ++ [article_summary article])
        [] all_articles.

(** Cleaning the text of a page. *)

(** [s.lstrip()] *)
Fixpoint lstrip (isspace : N -> bool) (s : str) : str :=
  match s with
  | c :: s' => if isspace c then lstrip isspace s' else s
  | [] => []
  end.

(** [s.strip()] *)
Definition strip (isspace : N -> bool) (s : str) : str :=
  reverse (lstrip isspace (reverse (lstrip isspace s))).

(** A character put in front of the first piece. *)
Definition prepend (c : N) (pieces : list str) : list str :=
  match pieces with
  | p :: ps => (c :: p) :: ps
  | [] => [[c]]
  end.

(** [s.split("  ")] *)
Fixpoint split_double_space (s : str) : list str :=
  match s with
  | [] => [[]]
  | c :: rest =>
      match rest with
      | d :: rest' =>
          if N.eqb c 32 && N.eqb d 32
          then [] :: split_double_space rest'
          else prepend c (split_double_space rest)
      | [] => [[c]]
      end
  end.

(** [sep.join(chunks)] *)
Fixpoint join (sep : str) (chunks : list str) : str :=
  match chunks with
  | [] => []
  | c :: rest =>
      match rest with
      | [] => c
      | _ :: _ => c ++ sep ++ join sep rest
      end
  end.

(** [extract_text_from_html]. [get_text html] is [soup.get_text()] once the
    scripts and styles are removed; [splitlines] is [str.splitlines] and
    [isspace] tells the characters that [str.strip] removes. *)
Definition extract_text_from_html (get_text : str -> str)
    (splitlines : str -> list str) (isspace : N -> bool) (html : str) : str :=
  let text := get_text html in
  let lines := List.map (strip isspace) (splitlines text) in
  let chunks :=
    flat_map (fun line =>
                List.map (strip isspace) (split_double_space line)) lines in
  let text := join (lit " ") (filter (fun chunk => chunk ≠ []) chunks) in
  text.

(** Is the character, if any, a space? *)
Definition is_space32 (o : option N) : bool :=
  match o with Some c => N.eqb c 32 | None => false end.

(** A chunk that [join] can take: not empty, without two spaces in a row,
    and with no character that [strip] removes at either end. *)
Definition tidy (isspace : N -> bool) (chunk : str) : Prop :=
  chunk ≠ [] ∧ str_in [32%N; 32%N] chunk = false ∧
  (∀ c, head chunk = Some c → isspace c = false) ∧
  (∀ c, last chunk = Some c → isspace c = false).

(** ** A small world for the helpers

    A polarity that raises on the empty text and reads "bene" and "male";
    a network that raises at ["down"], answers 404 at ["missing"], serves
    undecodable bytes at ["latin"] and elsewhere a page whose text is the
    address; a page on which [h2 a] selects one link and [article] one
    element whose heading is not a link. *)

Definition demo_polarity (text : str) : option Q :=
  match text with
  | [] => None
  | _ :: _ =>
      if str_in (lit "bene") (latin_lower text) then Some (3 # 5)%Q
      else if str_in (lit "male") (latin_lower text) then Some (- (3 # 5))%Q
      else Some 0%Q
  end.

Definition demo_session_get (url : str) (w : nat) : option Response * nat :=
  if bool_decide (url = lit "down") then (None, S w)
  else if bool_decide (url = lit "missing") then
    (Some (mkResponse 404 (TextOk (lit "not found")) None), S w)
  else if bool_decide (url = lit "latin") then
    (Some (mkResponse 200 TextUnicodeDecodeError
             (Some [Byte.x63; Byte.xe8])), S w)
  else (Some (mkResponse 200 (TextOk url) None), S w).

Fixpoint drop_spaces (s : str) : str :=
  match s with
  | c :: s' => if N.eqb c 32 then drop_spaces s' else s
  | [] => []
  end.

Definition demo_strip (s : str) : str :=
  reverse (drop_spaces (reverse (drop_spaces s))).

Definition demo_select (html selector : str) : list Element :=
  if bool_decide (selector = lit "h2 a") then
    [ {| elem_name := lit "a"; elem_text := html;
         elem_href := Some html; elem_find := None |} ]
  else if bool_decide (selector = lit "article") then
    [ {| elem_name := lit "article"; elem_text := html; elem_href := None;
         elem_find := Some {| title_name := lit "h2"; title_text := html;
                              title_href := None |} |} ]
  else [].

Definition demo_urljoin (base_url link : str) : str := link.

Definition demo_candidates :=
  extract_articles_from_page demo_select demo_strip demo_urljoin.
Definition demo_full_site :=
  analyze_website latin_lower nat nat demo_now (fetch_page demo_session_get)
    demo_extract_text demo_candidates (analyze_sentiment demo_polarity).
Definition demo_full_crawl :=
  crawl latin_lower nat nat demo_now (fetch_page demo_session_get)
    demo_extract_text demo_candidates (analyze_sentiment demo_polarity).
Definition demo_full_run :=
  run_analysis latin_lower nat nat demo_now demo_isoformat
    (fetch_page demo_session_get) demo_extract_text demo_candidates
    (analyze_sentiment demo_polarity).
Definition demo_run :=
  run_analysis latin_lower nat nat demo_now demo_isoformat demo_fetch_page
    demo_extract_text demo_extract_articles demo_sentiment.

(** The ASCII white space, and the lines between line feeds. *)
Definition demo_isspace (c : N) : bool :=
  ((9 <=? c) && (c <=? 13) || (c =? 32))%N.

Fixpoint demo_splitlines (s : str) : list str :=
  match s with
  | [] => []
  | c :: rest =>
      if N.eqb c 10 then [] :: demo_splitlines rest
      else prepend c (demo_splitlines rest)
  end.

(** The crawler of [main] in [main.py]. *)
Definition main_crawler : MarketAreaCrawler :=
  init latin_lower
    [lit "tecnologia"; lit "finanza"; lit "energia"; lit "automotive"]
    [lit "italia"; lit "europa"; lit "usa"; lit "cina"].

(** An article on a market that is not tracked. *)
Definition sport_articles : list (NewsArticle nat) :=
  [ tagged 50 [lit "sport"] [lit "italia"] ].

(** An article whose content has 1000 characters. *)
Definition long_article : NewsArticle nat :=
  {| title := lit "t"; content := take 1000 long_page; url := lit "u";
     date := None; market_areas := [lit "tecnologia"];
     locations := [lit "italia"]; sentiment_score := 50 |}.

(** ** Binary floating point

    A finite Python [float] is a binary64 number. It is represented here by
    its exact value, a rational; an operation on floats is the operation
    on the exact values followed by rounding to the nearest binary64 number
    ([float_of]). Infinities and NaN are outside the model: the statements
    about floats take scores between 0 and 100, whose sums and means stay
    finite. *)

(** [floor(log2 x)] for a positive [x]. *)
Definition ilog2 (x : Q) : Z :=
  let k := (Z.log2 (Qnum x) - Z.log2 (Z.pos (Qden x)))%Z in
  if Qle_bool (Qpower 2 k) x then k else (k - 1)%Z.

(** The binary64 number nearest to [x], a tie going to the even
    significand: a significand of 53 bits and an exponent of the last bit
    of at least -1074 (below, the numbers are subnormal). *)
Definition float_of (x : Q) : Q :=
  let x := Qred x in
  if Qeq_bool x 0 then 0%Q
  else
    let e := Z.max (ilog2 (Qabs x) - 52) (-1074) in
    Qred (inject_Z (round_half_even (x / Qpower 2 e)) * Qpower 2 e).


(** [x + y] and [x / y] on floats. *)
Definition float_add (x y : Q) : Q := float_of (x + y).
Definition float_div (x y : Q) : Q := float_of (x / y).

(** The conversion of an [int] operand to [float]. *)
Definition float_of_nat (n : nat) : Q := float_of (inject_Z (Z.of_nat n)).

(** [sum(values)] on floats: from 0, left to right, every partial sum
    rounded (CPython up to 3.11 adds the items one by one). *)
Definition float_sum (values : list Q) : Q := foldl float_add 0%Q values.

(** [round(x, ndigits)] on a float: the exact value of [x] rounded to
    [ndigits] decimals, ties to even, and the nearest float to that. *)
Definition float_round (x : Q) (ndigits : nat) : Q :=
  float_of (py_round x ndigits).

(** ** The report, in binary floating point

    [generate_market_report] once more, its arithmetic done as the
    interpreter does it. The loops, the keys and the counts are those of
    the section [Aggregator]; the averages and the trends are computed from
    the floating-point mean. *)

Module Binary64.

Section Aggregator.

Context {datetime : Type}.
Implicit Types (xs articles : list (NewsArticle datetime)).

(** [sum(a.sentiment_score for a in xs)] *)
Definition sum_sentiment xs : Q := float_sum (sentiment_score <$> xs).

(** [sum(...) / len(xs)] *)
Definition avg_sentiment xs : Q :=
  float_div (sum_sentiment xs) (float_of_nat (length xs)).

(** The body of [if xs:] in the first two loops. *)
Definition stats_of xs : option Stats :=
  match xs with
  | [] => None
  | _ :: _ =>
      Some {| article_count := length xs;
              average_sentiment := float_round (avg_sentiment xs) 2;
              sentiment_trend := trend (avg_sentiment xs) |}
  end.

(** The body of [if relevant_articles:] in the matrix loop. *)
Definition cell_of (market location : str) xs : option Cell :=
  match xs with
  | [] => None
  | _ :: _ =>
      Some {| cell_market := market;
              cell_location := location;
              cell_article_count := length xs;
              cell_average_sentiment := float_round (avg_sentiment xs) 2;
              cell_sentiment_trend := trend (avg_sentiment xs) |}
  end.

(** [# Analisi per mercato] *)
Definition markets_loop (self : MarketAreaCrawler) articles
    : gmap str Stats :=
  foldl (fun d market =>
           store d market (stats_of (market_articles market articles)))
        ∅ (self_market_areas self).

(** [# Analisi per località] *)
Definition locations_loop (self : MarketAreaCrawler) articles
    : gmap str Stats :=
  foldl (fun d location =>
           store d location (stats_of (location_articles location articles)))
        ∅ (self_locations self).

(** [# Matrice mercato-località] *)
Definition matrix_loop (self : MarketAreaCrawler) articles
    : gmap str Cell :=
  foldl (fun d market =>
           foldl (fun d location =>
                    let key := matrix_key market location in
                    store d key
                      (cell_of market location
                         (relevant_articles market location articles)))
                 d (self_locations self))
        ∅ (self_market_areas self).

End Aggregator.

Section Report.

Variables W datetime : Type.
Variable now : W -> datetime * W.
Variable isoformat : datetime -> str.

Definition generate_market_report (self : MarketAreaCrawler)
    (articles : list (NewsArticle datetime)) (w : W) : Report * W :=
  let '(d, w) := now w in
  ({| timestamp := isoformat d;
      total_articles := length articles;
      report_markets := markets_loop self articles;
      report_locations := locations_loop self articles;
      market_location_matrix := matrix_loop self articles |}, w).

(** The report alone. *)
Definition report_of (self : MarketAreaCrawler)
    (articles : list (NewsArticle datetime)) (w : W) : Report :=
  (generate_market_report self articles w).1.

End Report.

End Binary64.



(** ** The report, over the object store

    [generate_market_report] as a program on the objects it is given: the
    list object [articles] holds references to [NewsArticle] objects, which
    other lists may hold too; the program reads the list where the code
    iterates over it or takes its length, and an attribute of an article
    where the code loads it. A run returns [None] when the interpreter
    raises (here, when an address does not hold the kind of object the code
    expects). *)

Module Heap.

Definition addr : Type := nat.

Section Heap.

Variables W datetime : Type.
Variable now : W -> datetime * W.
Variable isoformat : datetime -> str.

(** The state of an object: the items of a list, or the attributes of a
    [NewsArticle]. *)
Inductive Obj : Type :=
| ObjList (items : list addr)
| ObjArticle (a : NewsArticle datetime).

Record State : Type := mkState {
  objects : gmap addr Obj;
  world : W
}.

(** A computation on the store. *)
Definition Run (A : Type) : Type := State -> option (A * State).

Definition ret {A : Type} (x : A) : Run A := fun s => Some (x, s).

Definition bind {A B : Type} (m : Run A) (k : A -> Run B) : Run B :=
  fun s =>
    match m s with
    | Some (x, s') => k x s'
    | None => None
    end.

#[local] Instance run_ret : MRet Run := @ret.
#[local] Instance run_bind : MBind Run := fun A B k m => bind m k.

(** The items of the list object at [l], as [for a in l] and [len(l)]
    read them. *)
Definition list_items (l : addr) : Run (list addr) :=
  fun s =>
    match objects s !! l with
    | Some (ObjList items) => Some (items, s)
    | _ => None
    end.

(** [a.attr] on the article object at [p]. *)
Definition getattr {A : Type} (attr : NewsArticle datetime -> A) (p : addr)
    : Run A :=
  fun s =>
    match objects s !! p with
    | Some (ObjArticle a) => Some (attr a, s)
    | _ => None
    end.

(** [l.append(p)]: a write, which [generate_market_report] does not
    use. *)
Definition list_append (l p : addr) : Run unit :=
  fun s =>
    match objects s !! l with
    | Some (ObjList items) =>
        Some (tt, {| objects := <[l := ObjList (items ++ [p])]> (objects s);
                     world := world s |})
    | _ => None
    end.

(** [datetime.now()] *)
Definition clock : Run datetime :=
  fun s =>
    let '(d, w) := now (world s) in
    Some (d, {| objects := objects s; world := w |}).

(** [[a for a in items if cond(a)]]: a new list of the same references. *)
Fixpoint comprehension (cond : addr -> Run bool) (items : list addr)
    : Run (list addr) :=
  match items with
  | [] => ret []
  | a :: items =>
      b ← cond a;
      rest ← comprehension cond items;
      ret (if b : bool then a :: rest else rest)
  end.

(** [(f(a) for a in items)], consumed to the end. *)
Fixpoint generator {A : Type} (f : addr -> Run A) (items : list addr)
    : Run (list A) :=
  match items with
  | [] => ret []
  | a :: items =>
      x ← f a;
      rest ← generator f items;
      ret (x :: rest)
  end.

(** [for x in xs: body], the dictionary being filled passed along. *)
Fixpoint for_each {A D : Type} (body : D -> A -> Run D) (d : D)
    (xs : list A) : Run D :=
  match xs with
  | [] => ret d
  | x :: xs => d ← body d x; for_each body d xs
  end.

(** Lines 258-263: the record of a non-empty list of articles. *)
Definition stats_of (xs : list addr) : Run (option Stats) :=
  match xs with
  | [] => ret None
  | _ :: _ =>
      scores ← generator (getattr sentiment_score) xs;
      let avg_sentiment :=
        float_div (float_sum scores) (float_of_nat (length xs)) in
      ret (Some {| article_count := length xs;
                   average_sentiment := float_round avg_sentiment 2;
                   sentiment_trend := trend avg_sentiment |})
  end.

(** Lines 285-292. *)
Definition cell_of (market location : str) (xs : list addr)
    : Run (option Cell) :=
  match xs with
  | [] => ret None
  | _ :: _ =>
      scores ← generator (getattr sentiment_score) xs;
      let avg_sentiment :=
        float_div (float_sum scores) (float_of_nat (length xs)) in
      ret (Some {| cell_market := market;
                   cell_location := location;
                   cell_article_count := length xs;
                   cell_average_sentiment := float_round avg_sentiment 2;
                   cell_sentiment_trend := trend avg_sentiment |})
  end.

(** [market in a.market_areas] *)
Definition has_market (market : str) (a : addr) : Run bool :=
  tags ← getattr market_areas a;
  ret (bool_decide (market ∈ tags)).

(** [location in a.locations] *)
Definition has_location (location : str) (a : addr) : Run bool :=
  tags ← getattr locations a;
  ret (bool_decide (location ∈ tags)).

(** [market in a.market_areas and location in a.locations]: the second
    attribute is loaded when the first test succeeds. *)
Definition has_both (market location : str) (a : addr) : Run bool :=
  b ← has_market market a;
  if b : bool then has_location location a else ret false.

(** One turn of the loop [# Analisi per mercato]. *)
Definition market_turn (articles : addr) (report_markets : gmap str Stats)
    (market : str) : Run (gmap str Stats) :=
  items ← list_items articles;
  market_articles ← comprehension (has_market market) items;
  e ← stats_of market_articles;
  ret (store report_markets market e).

(** One turn of the loop [# Analisi per località]. *)
Definition location_turn (articles : addr)
    (report_locations : gmap str Stats) (location : str)
    : Run (gmap str Stats) :=
  items ← list_items articles;
  location_articles ← comprehension (has_location location) items;
  e ← stats_of location_articles;
  ret (store report_locations location e).

(** One turn of the inner loop of [# Matrice mercato-località]. *)
Definition pair_turn (articles : addr) (market : str)
    (matrix : gmap str Cell) (location : str) : Run (gmap str Cell) :=
  let key := matrix_key market location in
  items ← list_items articles;
  relevant_articles ← comprehension (has_both market location) items;
  c ← cell_of market location relevant_articles;
  ret (store matrix key c).

Definition generate_market_report (self : MarketAreaCrawler)
    (articles : addr) : Run Report :=
  d ← clock;
  items ← list_items articles;
  markets ← for_each (market_turn articles) ∅ (self_market_areas self);
  locs ← for_each (location_turn articles) ∅ (self_locations self);
  matrix ←
    for_each (fun matrix market =>
                for_each (pair_turn articles market) matrix
                  (self_locations self))
             ∅ (self_market_areas self);
  ret {| timestamp := isoformat d;
         total_articles := length items;
         report_markets := markets;
         report_locations := locs;
         market_location_matrix := matrix |}.

(** The list object at [l] holds references to article objects whose
    attributes are those of [xs], in this order. *)
Definition articles_at (s : State) (l : addr)
    (xs : list (NewsArticle datetime)) : Prop :=
  ∃ items,
    objects s !! l = Some (ObjList items) ∧
    Forall2 (fun p a => objects s !! p = Some (ObjArticle a)) items xs.

End Heap.

Arguments ObjList {datetime}.
Arguments ObjArticle {datetime}.
Arguments mkState {W datetime}.
Arguments objects {W datetime}.
Arguments world {W datetime}.
Arguments ret {W datetime A}.
Arguments bind {W datetime A B}.
Arguments list_items {W datetime}.
Arguments getattr {W datetime A}.
Arguments list_append {W datetime}.
Arguments clock {W datetime}.
Arguments comprehension {W datetime}.
Arguments generator {W datetime A}.
Arguments for_each {W datetime A D}.
Arguments stats_of {W datetime}.
Arguments cell_of {W datetime}.
Arguments has_market {W datetime}.
Arguments has_location {W datetime}.
Arguments has_both {W datetime}.
Arguments market_turn {W datetime}.
Arguments location_turn {W datetime}.
Arguments pair_turn {W datetime}.
Arguments generate_market_report {W datetime}.
Arguments articles_at {W datetime}.

End Heap.

(** ** Inputs for the two models of the report *)

Definition demo_float_report :=
  Binary64.report_of nat nat demo_now demo_isoformat.



(** A store with two article objects and, at address 0, a list object that
    holds the first of them twice. *)
Definition demo_first : NewsArticle nat :=
  tagged 80 [lit "tecnologia"] [lit "italia"].
Definition demo_second : NewsArticle nat :=
  tagged 40 [lit "tecnologia"; lit "energia"] [lit "usa"].
Definition demo_state : Heap.State nat nat :=
  {| Heap.objects :=
       {[ 0 := Heap.ObjList [1; 2; 1];
          1 := Heap.ObjArticle demo_first;
          2 := Heap.ObjArticle demo_second ]};
     Heap.world := 0 |}.
Definition demo_heap_report :=
  Heap.generate_market_report demo_now demo_isoformat.

(** * Properties *)

(** A decidable closed proposition, by evaluation. *)
Ltac by_computation := apply (bool_decide_unpack _); by vm_compute.

(** ** Strings and the tagger *)

Lemma startswith_spec (k x : str) :
  startswith k x = true ↔ ∃ post, x = k ++ post.
Proof.
  revert x. induction k as [|c k IH]; intros x; simpl.
  - split; [intros _; by exists x | done].
  - destruct x as [|d x].
    + split; [done | intros [post H]; discriminate H].
    + destruct (N.eqb_spec c d) as [->|Hne].
      * rewrite IH. split; intros [post H]; exists post.
        -- by rewrite H.
        -- by injection H.
      * split; [done | intros [post H]; injection H; congruence].
Qed.

Lemma str_in_spec (k x : str) :
  str_in k x = true ↔ ∃ pre post, x = pre ++ k ++ post.
Proof.
  induction x as [|a x IH]; simpl.
  - rewrite startswith_spec. split.
    + intros [post H]. exists [], post. done.
    + intros (pre & post & H). symmetry in H.
      apply app_eq_nil in H as [-> H]. apply app_eq_nil in H as [-> ->].
      by exists [].
  - destruct (startswith k (a :: x)) eqn:Hs.
    + split; [intros _ | done].
      apply startswith_spec in Hs as [post H]. by exists [], post.
    + rewrite IH. split.
      * intros (pre & post & ->). by exists (a :: pre), post.
      * intros (pre & post & H). destruct pre as [|b pre].
        -- assert (startswith k (a :: x) = true) as Hc
             by (apply startswith_spec; by exists post).
           congruence.
        -- injection H as _ ->. by exists pre, post.
Qed.

Lemma any_keyword_in_spec (keywords : list str) (text_lower : str) :
  any_keyword_in keywords text_lower = true ↔
  ∃ k, k ∈ keywords ∧ str_in k text_lower = true.
Proof.
  induction keywords as [|k keywords IH]; simpl.
  - split; [done | intros (k & Hk & _); by apply elem_of_nil in Hk].
  - destruct (str_in k text_lower) eqn:Hk.
    + split; [intros _ | done]. exists k. split; [left | done].
    + rewrite IH. split.
      * intros (k' & Hin & H). exists k'. split; [by right | done].
      * intros (k' & Hin & H). apply elem_of_cons in Hin as [->|Hin].
        -- congruence.
        -- by exists k'.
Qed.

Lemma scan_keywords_spec items tracked text_lower (c : str) :
  c ∈ scan_keywords items tracked text_lower ↔
  c ∈ tracked ∧
  ∃ keywords, (c, keywords) ∈ items ∧
              any_keyword_in keywords text_lower = true.
Proof.
  induction items as [|[category keywords] items IH]; simpl.
  - split; [intros H; by apply elem_of_nil in H|].
    intros (_ & kws & H & _). by apply elem_of_nil in H.
  - assert (c ∈ tracked ∧
            (∃ kws, (c, kws) ∈ items ∧ any_keyword_in kws text_lower = true)
            → c ∈ tracked ∧
              ∃ kws, (c, kws) ∈ (category, keywords) :: items ∧
                     any_keyword_in kws text_lower = true) as Hweak.
    { intros (Ht & kws & Hin & Hk). split; [done|].
      exists kws. split; [by right | done]. }
    case_bool_decide as Htr.
    + destruct (any_keyword_in keywords text_lower) eqn:Hany.
      * rewrite elem_of_cons, IH. split.
        -- intros [->|H]; [|by apply Hweak].
           split; [done|]. exists keywords. split; [left | done].
        -- intros (Ht & kws & Hin & Hk).
           apply elem_of_cons in Hin as [Heq|Hin].
           ++ injection Heq as -> ->. by left.
           ++ right. split; [done|]. by exists kws.
      * rewrite IH. split; [apply Hweak|].
        intros (Ht & kws & Hin & Hk). split; [done|].
        apply elem_of_cons in Hin as [Heq|Hin].
        -- injection Heq as -> ->. congruence.
        -- by exists kws.
    + rewrite IH. split; [apply Hweak|].
      intros (Ht & kws & Hin & Hk). split; [done|].
      apply elem_of_cons in Hin as [Heq|Hin].
      * injection Heq as -> ->. done.
      * by exists kws.
Qed.

Lemma scan_keywords_keys items tracked text_lower (c : str) :
  c ∈ scan_keywords items tracked text_lower → c ∈ keys items.
Proof.
  intros (_ & kws & Hin & _)%scan_keywords_spec.
  unfold keys. apply list_elem_of_fmap. by exists (c, kws).
Qed.

Lemma elem_of_vocabulary items tracked (c : str) (kws : list str) :
  (c, kws) ∈ vocabulary items tracked ↔ (c, kws) ∈ items ∧ c ∈ tracked.
Proof. unfold vocabulary. rewrite list_elem_of_filter. simpl. tauto. Qed.

Lemma keywords_lowered_Forall (lower : str -> str) self :
  Forall (fun item : str * list str => Forall (fun k => lower k = k) item.2)
    (market_keywords self ++ location_keywords self) →
  keywords_lowered lower self.
Proof.
  intros H category keywords k Hin Hk.
  rewrite Forall_forall in H. specialize (H _ Hin). simpl in H.
  rewrite Forall_forall in H. by apply H.
Qed.

(** The keywords written by [__init__] are unchanged by lowercasing. *)
Lemma init_keywords_lowered (market_areas locations : list str) :
  keywords_lowered latin_lower (init latin_lower market_areas locations).
Proof.
  apply keywords_lowered_Forall. simpl.
  by_computation.
Qed.

Section TaggerFacts.

Variable lower : str -> str.

Lemma find_market_areas_spec self text (c : str) :
  c ∈ find_market_areas lower self text ↔
  c ∈ self_market_areas self ∧
  ∃ keywords, (c, keywords) ∈ market_keywords self ∧
              any_keyword_in keywords (lower text) = true.
Proof. unfold find_market_areas. apply scan_keywords_spec. Qed.

Lemma find_locations_spec self text (c : str) :
  c ∈ find_locations lower self text ↔
  c ∈ self_locations self ∧
  ∃ keywords, (c, keywords) ∈ location_keywords self ∧
              any_keyword_in keywords (lower text) = true.
Proof. unfold find_locations. apply scan_keywords_spec. Qed.

Lemma scan_in_vocabulary items tracked text (c : str) :
  c ∈ scan_keywords items tracked (lower text) →
  c ∈ keys (vocabulary items tracked).
Proof.
  intros (Ht & kws & Hin & _)%scan_keywords_spec.
  unfold keys. apply list_elem_of_fmap. exists (c, kws).
  split; [done|]. by apply elem_of_vocabulary.
Qed.

Lemma scan_complete items tracked text (c k : str) (kws : list str) :
  (∀ k', k' ∈ kws → lower k' = k') →
  (c, kws) ∈ vocabulary items tracked → k ∈ kws →
  occurs_ignoring_case lower k text →
  c ∈ scan_keywords items tracked (lower text).
Proof.
  intros Hlow [Hin Ht]%elem_of_vocabulary Hk (pre & post & Hocc).
  apply scan_keywords_spec. split; [done|]. exists kws. split; [done|].
  apply any_keyword_in_spec. exists k. split; [done|].
  apply str_in_spec. exists pre, post. by rewrite <- (Hlow k Hk) at 1.
Qed.

(** C4. The categories the tagger returns are keys of its vocabulary (the
    keyword dictionary restricted to the tracked categories), and a
    category of the vocabulary one of whose keywords occurs in the text as
    a case-insensitive substring is returned; for markets and for
    locations. The keywords are those of a crawler, all in lower case. *)
Theorem tagger_sound_and_complete self (text : str) :
  keywords_lowered lower self →
  (∀ c, c ∈ find_market_areas lower self text →
        c ∈ keys (vocabulary (market_keywords self)
                    (self_market_areas self))) ∧
  (∀ c kws k,
     (c, kws) ∈ vocabulary (market_keywords self) (self_market_areas self) →
     k ∈ kws → occurs_ignoring_case lower k text →
     c ∈ find_market_areas lower self text) ∧
  (∀ c, c ∈ find_locations lower self text →
        c ∈ keys (vocabulary (location_keywords self)
                    (self_locations self))) ∧
  (∀ c kws k,
     (c, kws) ∈ vocabulary (location_keywords self) (self_locations self) →
     k ∈ kws → occurs_ignoring_case lower k text →
     c ∈ find_locations lower self text).
Proof.
  intros Hlow. repeat split.
  - intros c. apply scan_in_vocabulary.
  - intros c kws k Hin Hk Hocc.
    apply (scan_complete _ _ _ c k kws); [|done..].
    intros k' Hk'. apply (Hlow c kws); [|done].
    apply elem_of_vocabulary in Hin as [Hin _].
    apply elem_of_app. by left.
  - intros c. apply scan_in_vocabulary.
  - intros c kws k Hin Hk Hocc.
    apply (scan_complete _ _ _ c k kws); [|done..].
    intros k' Hk'. apply (Hlow c kws); [|done].
    apply elem_of_vocabulary in Hin as [Hin _].
    apply elem_of_app. by right.
Qed.

End TaggerFacts.

Lemma tagger_sound_and_complete_witness :
  keywords_lowered latin_lower shipped ∧
  occurs_ignoring_case latin_lower (lit "startup")
    (lit "Le STARTUP di Milano") ∧
  lit "tecnologia" ∈
    find_market_areas latin_lower shipped (lit "Le STARTUP di Milano").
Proof.
  assert (occurs_ignoring_case latin_lower (lit "startup")
            (lit "Le STARTUP di Milano")) as Hocc
    by (exists (lit "le "), (lit " di milano"); by vm_compute).
  split; [apply init_keywords_lowered|]. split; [exact Hocc|].
  destruct (tagger_sound_and_complete latin_lower shipped
              (lit "Le STARTUP di Milano")
              (init_keywords_lowered MARKET_AREAS LOCATIONS))
    as (_ & Hcomplete & _).
  apply (Hcomplete (lit "tecnologia")
           [lit "tech"; lit "tecnologia"; lit "software"; lit "ai";
            lit "intelligenza artificiale"; lit "startup"]
           (lit "startup")); [| |exact Hocc].
  - by_computation.
  - by_computation.
Defined.

(** ** The article classifier *)

Section PipelineFacts.

Variable lower : str -> str.
Variables W datetime : Type.
Variable now : W -> datetime * W.
Variable isoformat : datetime -> str.
Variable fetch_page : str -> W -> option str * W.
Variable extract_text_from_html : str -> str.
Variable extract_articles_from_page : str -> str -> list ArticleData.
Variable analyze_sentiment : str -> Q.

Abbreviation classify' := (classify lower W datetime now analyze_sentiment).
Abbreviation analyze_candidate' :=
  (analyze_candidate lower W datetime now fetch_page extract_text_from_html
     analyze_sentiment).
Abbreviation analyze_website' :=
  (analyze_website lower W datetime now fetch_page extract_text_from_html
     extract_articles_from_page analyze_sentiment).
Abbreviation crawl' :=
  (crawl lower W datetime now fetch_page extract_text_from_html
     extract_articles_from_page analyze_sentiment).

(** What a constructed article holds. *)
Lemma classify_Some self article_data text w a w' :
  classify' self article_data text w = (Some a, w') →
  market_areas a = find_market_areas lower self text ∧
  locations a = find_locations lower self text ∧
  content a = slice_to 1000 text ∧
  title a = data_title article_data ∧
  url a = data_url article_data ∧
  sentiment_score a = analyze_sentiment text.
Proof.
  unfold classify. intros H.
  destruct (find_market_areas lower self text) as [|m ms];
    [by inversion H|].
  destruct (find_locations lower self text) as [|l ls];
    [by inversion H|].
  destruct (now w) as [d w1]. by inversion H.
Qed.

Lemma classify_is_Some self article_data text w :
  is_Some (classify' self article_data text w).1 ↔
  find_market_areas lower self text ≠ [] ∧
  find_locations lower self text ≠ [].
Proof.
  unfold classify.
  destruct (find_market_areas lower self text) as [|m ms];
    [split; [by intros [? ?] | by intros [? _]]|].
  destruct (find_locations lower self text) as [|l ls];
    [split; [by intros [? ?] | by intros [_ ?]]|].
  destruct (now w) as [d w1]. simpl. split; [done | by eexists].
Qed.

(** The articles a turn of the loop leaves are those it found, and at most
    one constructed by [classify]. *)
Lemma analyze_candidate_elem self acc article_data (a : NewsArticle datetime) :
  a ∈ (analyze_candidate' self acc article_data).1 →
  a ∈ acc.1 ∨
  ∃ text w w', classify' self article_data text w = (Some a, w').
Proof.
  unfold analyze_candidate. destruct acc as [analyzed w].
  destruct (candidate_content W fetch_page extract_text_from_html
              article_data w) as [text w1].
  destruct (classify' self article_data text w1) as [[article|] w2] eqn:Hc;
    simpl; [|by left].
  intros [Hin|Hin%list_elem_of_singleton]%elem_of_app; [by left|].
  subst. right. by exists text, w1, w2.
Qed.

Lemma analyze_loop_elem self articles_data acc (a : NewsArticle datetime) :
  a ∈ (foldl (analyze_candidate' self) acc articles_data).1 →
  a ∈ acc.1 ∨
  ∃ article_data text w w',
    article_data ∈ articles_data ∧
    classify' self article_data text w = (Some a, w').
Proof.
  revert acc. induction articles_data as [|ad ads IH]; intros acc; simpl.
  - by left.
  - intros [Hin|(ad' & text & w & w' & Hin & Hc)]%IH.
    + apply analyze_candidate_elem in Hin as [Hin|(text & w & w' & Hc)];
        [by left|].
      right. exists ad, text, w, w'. split; [left | done].
    + right. exists ad', text, w, w'. split; [by right | done].
Qed.

Lemma analyze_website_elem self site w (a : NewsArticle datetime) :
  a ∈ (analyze_website' self site w).1 →
  ∃ article_data text w0 w1,
    classify' self article_data text w0 = (Some a, w1).
Proof.
  unfold analyze_website. destruct (fetch_page site w) as [html w1].
  destruct (truthy html); simpl; [|by intros ?%elem_of_nil].
  intros [Hin|(ad & text & w0 & w' & _ & Hc)]%analyze_loop_elem.
  - by apply elem_of_nil in Hin.
  - by exists ad, text, w0, w'.
Qed.

Lemma crawl_loop_elem self websites acc (a : NewsArticle datetime) :
  a ∈ (foldl (fun '(all_articles, w) website =>
                let '(articles, w) := analyze_website' self website w in
                (all_articles ++ articles, w)) acc websites).1 →
  a ∈ acc.1 ∨
  ∃ article_data text w0 w1,
    classify' self article_data text w0 = (Some a, w1).
Proof.
  revert acc. induction websites as [|site sites IH]; intros [all w]; simpl.
  - by left.
  - destruct (analyze_website' self site w) as [articles w1] eqn:Hw.
    intros [Hin|Hc]%IH; [|by right]. simpl in Hin.
    apply elem_of_app in Hin as [Hin|Hin]; [by left|].
    right. apply (analyze_website_elem self site w). by rewrite Hw.
Qed.

Lemma crawl_elem self websites w (a : NewsArticle datetime) :
  a ∈ (crawl' self websites w).1 →
  ∃ article_data text w0 w1,
    classify' self article_data text w0 = (Some a, w1).
Proof.
  unfold crawl. intros [Hin|H]%crawl_loop_elem; [|done].
  by apply elem_of_nil in Hin.
Qed.

(** C5. An article is constructed from a candidate exactly when the tagger
    finds a market and a location in its text; a candidate with no market
    or no location leaves the list of analysed articles as it was; and
    every article of a site, and of a whole crawl, has a market and a
    location. *)
Theorem article_iff_market_and_location self :
  (∀ article_data text w,
     is_Some (classify' self article_data text w).1 ↔
     find_market_areas lower self text ≠ [] ∧
     find_locations lower self text ≠ []) ∧
  (∀ analyzed w article_data,
     let text := (candidate_content W fetch_page extract_text_from_html
                    article_data w).1 in
     find_market_areas lower self text = [] ∨
     find_locations lower self text = [] →
     (analyze_candidate' self (analyzed, w) article_data).1 = analyzed) ∧
  (∀ site w a,
     a ∈ (analyze_website' self site w).1 →
     market_areas a ≠ [] ∧ locations a ≠ []) ∧
  (∀ websites w a,
     a ∈ (crawl' self websites w).1 →
     market_areas a ≠ [] ∧ locations a ≠ []).
Proof.
  assert (∀ ad text w0 w1 (a : NewsArticle datetime),
            classify' self ad text w0 = (Some a, w1) →
            market_areas a ≠ [] ∧ locations a ≠ []) as Hcl.
  { intros ad text w0 w1 a Hc.
    destruct (classify_Some _ _ _ _ _ _ Hc) as (-> & -> & _).
    apply (classify_is_Some self ad text w0). rewrite Hc. by eexists. }
  split; [|split; [|split]].
  - intros ad text w. apply classify_is_Some.
  - intros analyzed w ad text Hempty. unfold analyze_candidate.
    subst text.
    destruct (candidate_content W fetch_page extract_text_from_html ad w)
      as [text w1]. simpl in Hempty.
    destruct (classify' self ad text w1) as [[article|] w2] eqn:Hc; [|done].
    exfalso.
    assert (is_Some (classify' self ad text w1).1) as Hs
      by (rewrite Hc; by eexists).
    apply classify_is_Some in Hs as [Hm Hl]. by destruct Hempty.
  - intros site w a (ad & text & w0 & w1 & Hc)%analyze_website_elem.
    by apply (Hcl _ _ _ _ _ Hc).
  - intros websites w a (ad & text & w0 & w1 & Hc)%crawl_elem.
    by apply (Hcl _ _ _ _ _ Hc).
Qed.

(** C9. The content of a constructed article is the first 1000 characters
    of the candidate's text, so it is never longer than 1000; this holds
    of every article of a site and of a crawl. *)
Theorem content_truncated self :
  (∀ article_data text w a w',
     classify' self article_data text w = (Some a, w') →
     content a = slice_to 1000 text ∧ length (content a) ≤ 1000) ∧
  (∀ site w a,
     a ∈ (analyze_website' self site w).1 → length (content a) ≤ 1000) ∧
  (∀ websites w a,
     a ∈ (crawl' self websites w).1 → length (content a) ≤ 1000).
Proof.
  assert (∀ ad text w0 w1 (a : NewsArticle datetime),
            classify' self ad text w0 = (Some a, w1) →
            content a = slice_to 1000 text ∧ length (content a) ≤ 1000)
    as Hcl.
  { intros ad text w0 w1 a Hc.
    destruct (classify_Some _ _ _ _ _ _ Hc) as (_ & _ & -> & _).
    split; [done|]. unfold slice_to. rewrite length_take. lia. }
  split; [|split].
  - intros ad text w a w' Hc. by apply (Hcl _ _ _ _ _ Hc).
  - intros site w a (ad & text & w0 & w1 & Hc)%analyze_website_elem.
    by apply (Hcl _ _ _ _ _ Hc).
  - intros websites w a (ad & text & w0 & w1 & Hc)%crawl_elem.
    by apply (Hcl _ _ _ _ _ Hc).
Qed.

End PipelineFacts.

(** ** Numbers *)

Lemma Qlt_bool_iff (x y : Q) : Qlt_bool x y = true ↔ (x < y)%Q.
Proof.
  unfold Qlt_bool. rewrite negb_true_iff, <- not_true_iff_false.
  rewrite Qle_bool_iff. split; [apply Qnot_le_lt | apply Qlt_not_le].
Qed.

Lemma round_half_even_comp (x y : Q) :
  (x == y)%Q → round_half_even x = round_half_even y.
Proof.
  intros H. unfold round_half_even.
  rewrite (Qfloor_comp _ _ H).
  assert ((x - inject_Z (Qfloor y) ?= 1 # 2)
          = (y - inject_Z (Qfloor y) ?= 1 # 2))%Q as ->; [|done].
  apply Qcompare_comp; [|reflexivity]. by rewrite H.
Qed.


Lemma round_half_even_near (q : Q) :
  (Qabs (q - inject_Z (round_half_even q)) <= 1 # 2)%Q.
Proof.
  unfold round_half_even.
  pose proof (Qfloor_le q) as Hlo. pose proof (Qlt_floor q) as Hhi.
  rewrite inject_Z_plus in Hhi. change (inject_Z 1) with 1%Q in Hhi.
  apply Qabs_Qle_condition.
  destruct (q - inject_Z (Qfloor q) ?= 1 # 2)%Q eqn:Hc.
  - apply Qeq_alt in Hc.
    destruct (Z.even (Qfloor q));
      [|rewrite inject_Z_plus; change (inject_Z 1) with 1%Q]; split; lra.
  - apply Qlt_alt in Hc. split; lra.
  - apply Qgt_alt in Hc. rewrite inject_Z_plus.
    change (inject_Z 1) with 1%Q. split; lra.
Qed.

(** [round(x, 2)] is a whole number of hundredths, at most half a hundredth
    away from [x]. *)
Lemma py_round_2_spec (x : Q) :
  ∃ k : Z, (py_round x 2 == inject_Z k / 100)%Q ∧
           (Qabs (x - py_round x 2) <= 1 # 200)%Q.
Proof.
  exists (round_half_even (x * 100)). unfold py_round.
  change (inject_Z (10 ^ Z.of_nat 2)) with 100%Q.
  rewrite Qred_correct. split; [reflexivity|].
  pose proof (round_half_even_near (x * 100)) as H.
  apply Qabs_Qle_condition in H as [H1 H2].
  apply Qabs_Qle_condition.
  set (r := inject_Z (round_half_even (x * 100))) in *.
  split.
  - apply Qmult_le_r with (z := 100%Q); [reflexivity|].
    field_simplify. field_simplify in H1. lra.
  - apply Qmult_le_r with (z := 100%Q); [reflexivity|].
    field_simplify. field_simplify in H2. lra.
Qed.

(** C3. The trend of a score above 60 is positive, of a score below 40
    negative, and of every other score neutral; the three cases cover every
    score and exclude each other. 40 and 60 are neutral, 60.01 is positive
    and 39.99 negative. *)
Theorem trend_classification (score : Q) :
  ((60 < score)%Q → trend score = lit "positive") ∧
  ((score < 40)%Q → trend score = lit "negative") ∧
  ((40 <= score)%Q → (score <= 60)%Q → trend score = lit "neutral") ∧
  ((60 < score)%Q ∨ (score < 40)%Q ∨ (40 <= score)%Q ∧ (score <= 60)%Q) ∧
  ¬ ((60 < score)%Q ∧ (score < 40)%Q) ∧
  trend 40 = lit "neutral" ∧
  trend 60 = lit "neutral" ∧
  trend (6001 # 100) = lit "positive" ∧
  trend (3999 # 100) = lit "negative".
Proof.
  unfold trend.
  destruct (Qlt_bool 60 score) eqn:Hhi; destruct (Qlt_bool score 40) eqn:Hlo.
  all: try apply Qlt_bool_iff in Hhi; try apply Qlt_bool_iff in Hlo.
  all: try (apply not_true_iff_false in Hhi; rewrite Qlt_bool_iff in Hhi;
            apply Qnot_lt_le in Hhi).
  all: try (apply not_true_iff_false in Hlo; rewrite Qlt_bool_iff in Hlo;
            apply Qnot_lt_le in Hlo).
  all: repeat apply conj; try reflexivity; try (intros; lra); try tauto.
  all: try (intros [? ?]; lra).
Qed.

Lemma trend_classification_witness :
  trend 75 = lit "positive" ∧ trend 12 = lit "negative" ∧
  trend 50 = lit "neutral".
Proof.
  split; [|split].
  - destruct (trend_classification 75) as (H & _). apply H. reflexivity.
  - destruct (trend_classification 12) as (_ & H & _). apply H. reflexivity.
  - destruct (trend_classification 50) as (_ & _ & H & _).
    apply H; discriminate.
Defined.

(** ** Loops that store into a dictionary *)

Section StoreLoops.

Context {A V : Type} (key : A → str) (val : A → option V).

Lemma lookup_store (d : gmap str V) (k k' : str) (ov : option V) :
  store d k' ov !! k =
  if decide (k' = k) then from_option Some (d !! k) ov else d !! k.
Proof.
  unfold store. destruct ov as [v|]; simpl.
  - rewrite lookup_insert. by case_decide.
  - by case_decide.
Qed.

(** A record found after the loop was there before or was stored by a
    turn of the loop. *)
Lemma store_loop_Some (xs : list A) (d : gmap str V) (k : str) (v : V) :
  foldl (fun d x => store d (key x) (val x)) d xs !! k = Some v →
  d !! k = Some v ∨ ∃ x, x ∈ xs ∧ key x = k ∧ val x = Some v.
Proof.
  revert d. induction xs as [|x xs IH]; intros d; simpl; [by left|].
  intros [H|(x' & Hin & Hk & Hv)]%IH.
  - rewrite lookup_store in H. case_decide as Hkey; [|by left].
    destruct (val x) as [v'|] eqn:Hval; simpl in H; [|by left].
    right. exists x. split; [left|]. split; [done|]. congruence.
  - right. exists x'. split; [by right | done].
Qed.

(** When every turn that writes under [k] writes the same thing, that is
    what the loop leaves there. *)
Lemma store_loop_agree (xs : list A) (d : gmap str V) (k : str)
    (ov : option V) :
  (∀ x, x ∈ xs → key x = k → val x = ov) →
  foldl (fun d x => store d (key x) (val x)) d xs !! k =
  if decide (k ∈ key <$> xs) then from_option Some (d !! k) ov
  else d !! k.
Proof.
  revert d. induction xs as [|x xs IH]; intros d Hall.
  - rewrite decide_False; [done | apply not_elem_of_nil].
  - rewrite fmap_cons. cbn [foldl].
    rewrite IH by (intros x' Hin; apply Hall; by right).
    rewrite lookup_store.
    destruct (decide (key x = k)) as [Hk|Hk].
    + rewrite (Hall x) by (done || left).
      rewrite (decide_True (P := k ∈ key x :: _)) by (rewrite <- Hk; left).
      case_decide; by destruct ov.
    + destruct (decide (k ∈ key <$> xs)) as [Hin|Hin].
      * rewrite decide_True by (by right). done.
      * rewrite decide_False; [done|].
        intros [?|?]%elem_of_cons; [congruence | done].
Qed.

End StoreLoops.

(** The two nested loops are one loop over the pairs, markets outermost. *)
Lemma nested_loop_pairs {B C D : Type} (f : D → B → C → D)
    (bs : list B) (cs : list C) (d : D) :
  foldl (fun d b => foldl (fun d c => f d b c) d cs) d bs =
  foldl (fun d p => f d p.1 p.2) d (list_prod bs cs).
Proof.
  revert d. induction bs as [|b bs IH]; intros d; simpl; [done|].
  rewrite foldl_app, <- IH. f_equal.
  clear IH. revert d. induction cs as [|c cs IH]; intros d; simpl; [done|].
  by rewrite IH.
Qed.

Lemma elem_of_list_prod_iff {B C : Type} (bs : list B) (cs : list C) b c :
  (b, c) ∈ list_prod bs cs ↔ b ∈ bs ∧ c ∈ cs.
Proof. rewrite !list_elem_of_In. apply in_prod_iff. Qed.

(** ** The aggregator *)

Section AggregatorFacts.

Context {datetime : Type}.
Implicit Types (articles xs : list (NewsArticle datetime)).
Implicit Types (a : NewsArticle datetime).

Lemma sum_sentiment_from (q : Q) xs :
  (foldl (fun acc a => acc + sentiment_score a) q xs
   == q + foldr Qplus 0 (sentiment_score <$> xs))%Q.
Proof.
  revert q. induction xs as [|a xs IH]; intros q.
  - cbn. lra.
  - rewrite fmap_cons. cbn [foldl foldr]. rewrite IH. lra.
Qed.

(** The average the code computes is the arithmetic mean of the scores. *)
Lemma avg_sentiment_mean xs :
  (avg_sentiment xs == arithmetic_mean (sentiment_score <$> xs))%Q.
Proof.
  unfold avg_sentiment, arithmetic_mean, sum_sentiment.
  rewrite sum_sentiment_from, length_fmap. by rewrite Qplus_0_l.
Qed.

Lemma stats_of_Some xs e :
  stats_of xs = Some e ↔
  xs ≠ [] ∧
  e = {| article_count := length xs;
         average_sentiment := py_round (avg_sentiment xs) 2;
         sentiment_trend := trend (avg_sentiment xs) |}.
Proof.
  destruct xs as [|a xs]; simpl.
  - split; [done | by intros [? _]].
  - split; [intros [= <-]; by split | by intros [_ ->]].
Qed.

Lemma stats_of_None xs : stats_of xs = None ↔ xs = [].
Proof. by destruct xs. Qed.

Lemma cell_of_Some market location xs c :
  cell_of market location xs = Some c ↔
  xs ≠ [] ∧
  c = {| cell_market := market; cell_location := location;
         cell_article_count := length xs;
         cell_average_sentiment := py_round (avg_sentiment xs) 2;
         cell_sentiment_trend := trend (avg_sentiment xs) |}.
Proof.
  destruct xs as [|a xs]; simpl.
  - split; [done | by intros [? _]].
  - split; [intros [= <-]; by split | by intros [_ ->]].
Qed.

Lemma cell_of_None market location xs :
  cell_of market location xs = None ↔ xs = [].
Proof. by destruct xs. Qed.

(** What the first loop leaves under a key. *)
Lemma markets_loop_lookup self articles (market : str) :
  markets_loop self articles !! market =
  if decide (market ∈ self_market_areas self)
  then stats_of (market_articles market articles) else None.
Proof.
  unfold markets_loop.
  rewrite (store_loop_agree (fun m : str => m)
             (fun m => stats_of (market_articles m articles))
             _ _ market (stats_of (market_articles market articles)))
    by (by intros x _ ->).
  rewrite list_fmap_id, lookup_empty.
  case_decide; [|done]. by destruct (stats_of _).
Qed.

Lemma locations_loop_lookup self articles (location : str) :
  locations_loop self articles !! location =
  if decide (location ∈ self_locations self)
  then stats_of (location_articles location articles) else None.
Proof.
  unfold locations_loop.
  rewrite (store_loop_agree (fun l : str => l)
             (fun l => stats_of (location_articles l articles))
             _ _ location (stats_of (location_articles location articles)))
    by (by intros x _ ->).
  rewrite list_fmap_id, lookup_empty.
  case_decide; [|done]. by destruct (stats_of _).
Qed.

Lemma matrix_loop_pairs self articles :
  matrix_loop self articles =
  foldl (fun d (p : str * str) =>
           store d (matrix_key p.1 p.2)
             (cell_of p.1 p.2 (relevant_articles p.1 p.2 articles)))
        ∅ (list_prod (self_market_areas self) (self_locations self)).
Proof.
  unfold matrix_loop.
  apply (nested_loop_pairs
           (fun d market location =>
              store d (matrix_key market location)
                (cell_of market location
                   (relevant_articles market location articles)))).
Qed.

(** A record of the matrix was stored for a tracked pair, under the
    composite key of that pair. *)
Lemma matrix_loop_Some self articles (k : str) (c : Cell) :
  matrix_loop self articles !! k = Some c →
  ∃ market location,
    market ∈ self_market_areas self ∧ location ∈ self_locations self ∧
    k = matrix_key market location ∧
    cell_of market location (relevant_articles market location articles)
    = Some c.
Proof.
  rewrite matrix_loop_pairs.
  intros [H|([m l] & Hin & Hk & Hv)]%store_loop_Some.
  - by rewrite lookup_empty in H.
  - apply elem_of_list_prod_iff in Hin as [Hm Hl].
    by exists m, l.
Qed.

(** Under an unambiguous composite key the matrix holds what the loop
    computed for the pair. *)
Lemma matrix_loop_unambiguous self articles (market location : str) :
  market ∈ self_market_areas self → location ∈ self_locations self →
  key_unambiguous self market location →
  matrix_loop self articles !! matrix_key market location =
  cell_of market location (relevant_articles market location articles).
Proof.
  intros Hm Hl Hkey. rewrite matrix_loop_pairs.
  rewrite (store_loop_agree (fun p : str * str => matrix_key p.1 p.2)
             (fun p => cell_of p.1 p.2 (relevant_articles p.1 p.2 articles))
             _ _ _
             (cell_of market location
                (relevant_articles market location articles))).
  - rewrite lookup_empty, decide_True; [by destruct (cell_of _ _ _)|].
    apply list_elem_of_fmap. exists (market, location).
    split; [done|]. by apply elem_of_list_prod_iff.
  - intros [m l] [Hm' Hl']%elem_of_list_prod_iff Heq. simpl in *.
    by destruct (Hkey m l Hm' Hl' Heq) as [-> ->].
Qed.

Lemma elem_of_market_articles market articles a :
  a ∈ market_articles market articles ↔
  a ∈ articles ∧ market ∈ market_areas a.
Proof. unfold market_articles. rewrite list_elem_of_filter. tauto. Qed.

Lemma elem_of_location_articles location articles a :
  a ∈ location_articles location articles ↔
  a ∈ articles ∧ location ∈ locations a.
Proof. unfold location_articles. rewrite list_elem_of_filter. tauto. Qed.

Lemma elem_of_relevant_articles market location articles a :
  a ∈ relevant_articles market location articles ↔
  a ∈ articles ∧ market ∈ market_areas a ∧ location ∈ locations a.
Proof. unfold relevant_articles. rewrite list_elem_of_filter. tauto. Qed.

End AggregatorFacts.

Lemma trend_comp (x y : Q) : (x == y)%Q → trend x = trend y.
Proof.
  intros H. unfold trend, Qlt_bool.
  assert (Qle_bool x 60 = Qle_bool y 60) as -> by (by rewrite H).
  assert (Qle_bool 40 x = Qle_bool 40 y) as -> by (by rewrite H).
  done.
Qed.

(** ** The report *)

Section ReportFacts.

Variables W datetime : Type.
Variable now : W -> datetime * W.
Variable isoformat : datetime -> str.

Implicit Types (articles : list (NewsArticle datetime)).
Implicit Types (a : NewsArticle datetime).
Implicit Types (self : MarketAreaCrawler) (w : W).

Abbreviation generate' := (generate_market_report W datetime now isoformat).
Abbreviation report' := (report_of W datetime now isoformat).

Lemma report_of_fields self articles w :
  total_articles (report' self articles w) = length articles ∧
  report_markets (report' self articles w) = markets_loop self articles ∧
  report_locations (report' self articles w)
  = locations_loop self articles ∧
  market_location_matrix (report' self articles w)
  = matrix_loop self articles.
Proof.
  unfold report_of, generate_market_report. simpl. by destruct (now w).
Qed.

Lemma report_markets_lookup self articles w (market : str) :
  report_markets (report' self articles w) !! market =
  if decide (market ∈ self_market_areas self)
  then stats_of (market_articles market articles) else None.
Proof.
  destruct (report_of_fields self articles w) as (_ & -> & _).
  apply markets_loop_lookup.
Qed.

Lemma report_locations_lookup self articles w (location : str) :
  report_locations (report' self articles w) !! location =
  if decide (location ∈ self_locations self)
  then stats_of (location_articles location articles) else None.
Proof.
  destruct (report_of_fields self articles w) as (_ & _ & -> & _).
  apply locations_loop_lookup.
Qed.

Lemma report_matrix_Some self articles w (k : str) (c : Cell) :
  market_location_matrix (report' self articles w) !! k = Some c →
  ∃ market location,
    market ∈ self_market_areas self ∧ location ∈ self_locations self ∧
    k = matrix_key market location ∧
    cell_of market location (relevant_articles market location articles)
    = Some c.
Proof.
  destruct (report_of_fields self articles w) as (_ & _ & _ & ->).
  apply matrix_loop_Some.
Qed.

Lemma report_matrix_unambiguous self articles w (market location : str) :
  market ∈ self_market_areas self → location ∈ self_locations self →
  key_unambiguous self market location →
  market_location_matrix (report' self articles w)
    !! matrix_key market location =
  cell_of market location (relevant_articles market location articles).
Proof.
  destruct (report_of_fields self articles w) as (_ & _ & _ & ->).
  apply matrix_loop_unambiguous.
Qed.

End ReportFacts.

Section ReportInvariants.

Variables W datetime : Type.
Variable now : W -> datetime * W.
Variable isoformat : datetime -> str.

Implicit Types (articles : list (NewsArticle datetime)).
Implicit Types (a : NewsArticle datetime).
Implicit Types (self : MarketAreaCrawler) (w : W).

Abbreviation generate'' :=
  (generate_market_report W datetime now isoformat).
Abbreviation report'' := (report_of W datetime now isoformat).

(** C6 (amended). Every key of the three mappings of the report belongs to
    a tracked market, location or pair whose matching subset is not empty,
    and the record under it counts that subset, so its count is at least
    1. A market or a location whose matching subset is empty is not a key
    of its mapping. A pair whose matching subset is empty has no record of
    its own in the matrix; its composite key is not a key of the matrix
    when every tracked pair with that composite key has an empty subset,
    hence when the key is the key of no other tracked pair. *)
Theorem no_empty_entries self articles w :
  let r := report'' self articles w in
  (∀ market e,
     report_markets r !! market = Some e →
     market ∈ self_market_areas self ∧
     market_articles market articles ≠ [] ∧
     article_count e = length (market_articles market articles) ∧
     1 ≤ article_count e) ∧
  (∀ location e,
     report_locations r !! location = Some e →
     location ∈ self_locations self ∧
     location_articles location articles ≠ [] ∧
     article_count e = length (location_articles location articles) ∧
     1 ≤ article_count e) ∧
  (∀ k c,
     market_location_matrix r !! k = Some c →
     cell_market c ∈ self_market_areas self ∧
     cell_location c ∈ self_locations self ∧
     k = matrix_key (cell_market c) (cell_location c) ∧
     relevant_articles (cell_market c) (cell_location c) articles ≠ [] ∧
     cell_article_count c
     = length (relevant_articles (cell_market c) (cell_location c)
                 articles) ∧
     1 ≤ cell_article_count c) ∧
  (∀ market,
     market_articles market articles = [] →
     report_markets r !! market = None) ∧
  (∀ location,
     location_articles location articles = [] →
     report_locations r !! location = None) ∧
  (∀ market location,
     relevant_articles market location articles = [] →
     ∀ k c, market_location_matrix r !! k = Some c →
            ¬ (cell_market c = market ∧ cell_location c = location)) ∧
  (∀ market location,
     (∀ market' location',
        market' ∈ self_market_areas self →
        location' ∈ self_locations self →
        matrix_key market' location' = matrix_key market location →
        relevant_articles market' location' articles = []) →
     market_location_matrix r !! matrix_key market location = None) ∧
  (∀ market location,
     key_unambiguous self market location →
     relevant_articles market location articles = [] →
     market_location_matrix r !! matrix_key market location = None).
Proof.
  assert (∀ xs : list (NewsArticle datetime), xs ≠ [] → 1 ≤ length xs)
    as Hlen by (intros [|? ?] ?; [done | simpl; lia]).
  assert (∀ market location,
            (∀ market' location',
               market' ∈ self_market_areas self →
               location' ∈ self_locations self →
               matrix_key market' location' = matrix_key market location →
               relevant_articles market' location' articles = []) →
            market_location_matrix (report'' self articles w)
              !! matrix_key market location = None) as Habsent.
  { intros market location Hall.
    destruct (market_location_matrix (report'' self articles w)
                !! matrix_key market location) as [c|] eqn:Hc; [|done].
    apply report_matrix_Some in Hc
      as (m & l & Hm & Hl & Hk & [Hne _]%cell_of_Some).
    by rewrite (Hall m l Hm Hl (eq_sym Hk)) in Hne. }
  intros r. subst r. repeat apply conj.
  - intros market e. rewrite report_markets_lookup.
    case_decide; [|done]. intros [Hne ->]%stats_of_Some. simpl.
    repeat split; [done..|]. by apply Hlen.
  - intros location e. rewrite report_locations_lookup.
    case_decide; [|done]. intros [Hne ->]%stats_of_Some. simpl.
    repeat split; [done..|]. by apply Hlen.
  - intros k c
      (m & l & Hm & Hl & -> & [Hne ->]%cell_of_Some)%report_matrix_Some.
    simpl. repeat split; [done..|]. by apply Hlen.
  - intros market Hempty. rewrite report_markets_lookup, Hempty.
    by case_decide.
  - intros location Hempty. rewrite report_locations_lookup, Hempty.
    by case_decide.
  - intros market location Hempty k c
      (m & l & _ & _ & _ & [Hne ->]%cell_of_Some)%report_matrix_Some.
    simpl. intros [-> ->]. done.
  - exact Habsent.
  - intros market location Hkey Hempty. apply Habsent.
    intros m l Hm Hl Hk. by destruct (Hkey m l Hm Hl Hk) as [-> ->].
Qed.

(** C7 (amended). For a tracked pair whose composite key is the key of no
    other tracked pair: the articles of the pair are those that have the
    market among their markets and the location among their locations;
    the record under the key of the pair is computed from them, and there
    is none when there are none; the count shown for the pair is their
    number, so one more article raises it by one exactly when it has the
    market and the location. *)
Theorem matrix_contribution self articles w (market location : str) :
  market ∈ self_market_areas self → location ∈ self_locations self →
  key_unambiguous self market location →
  (∀ a, a ∈ relevant_articles market location articles ↔
        a ∈ articles ∧ market ∈ market_areas a ∧ location ∈ locations a) ∧
  market_location_matrix (report'' self articles w)
    !! matrix_key market location
  = cell_of market location (relevant_articles market location articles) ∧
  matrix_count (report'' self articles w) market location
  = length (relevant_articles market location articles) ∧
  (∀ a w',
     matrix_count (report'' self (articles ++ [a]) w') market location
     = matrix_count (report'' self articles w) market location
       + (if decide (market ∈ market_areas a ∧ location ∈ locations a)
          then 1 else 0)).
Proof.
  intros Hm Hl Hkey.
  assert (∀ xs w0,
            matrix_count (report'' self xs w0) market location
            = length (relevant_articles market location xs)) as Hcount.
  { intros xs w0. unfold matrix_count.
    rewrite report_matrix_unambiguous by done.
    by destruct (relevant_articles market location xs). }
  split; [|split; [|split]].
  - intros a. apply elem_of_relevant_articles.
  - by apply report_matrix_unambiguous.
  - apply Hcount.
  - intros a w'. rewrite !Hcount. unfold relevant_articles.
    rewrite filter_app, length_app. f_equal.
    rewrite filter_cons, filter_nil. by case_decide.
Qed.

End ReportInvariants.

(** ** The report in binary floating point *)

(** Rounding to a float respects equality of rationals. *)

Lemma float_of_comp (x y : Q) : (x == y)%Q → float_of x = float_of y.
Proof. intros H. unfold float_of. by rewrite (Qred_complete x y H). Qed.


Section Binary64Facts.

Context {datetime : Type}.
Implicit Types (articles xs : list (NewsArticle datetime)).
Implicit Types (a : NewsArticle datetime).








Lemma float_matrix_loop_pairs self articles :
  Binary64.matrix_loop self articles =
  foldl (fun d (p : str * str) =>
           store d (matrix_key p.1 p.2)
             (Binary64.cell_of p.1 p.2
                (relevant_articles p.1 p.2 articles)))
        ∅ (list_prod (self_market_areas self) (self_locations self)).
Proof.
  unfold Binary64.matrix_loop.
  apply (nested_loop_pairs
           (fun d market location =>
              store d (matrix_key market location)
                (Binary64.cell_of market location
                   (relevant_articles market location articles)))).
Qed.



End Binary64Facts.

Section Binary64Report.

Variables W datetime : Type.
Variable now : W -> datetime * W.
Variable isoformat : datetime -> str.

Implicit Types (articles : list (NewsArticle datetime)).
Implicit Types (a : NewsArticle datetime).
Implicit Types (self : MarketAreaCrawler) (w : W).

Lemma float_report_of_fields self articles w :
  let r := Binary64.report_of W datetime now isoformat self articles w in
  total_articles r = length articles ∧
  report_markets r = Binary64.markets_loop self articles ∧
  report_locations r = Binary64.locations_loop self articles ∧
  market_location_matrix r = Binary64.matrix_loop self articles.
Proof.
  unfold Binary64.report_of, Binary64.generate_market_report.
  by destruct (now w).
Qed.



End Binary64Report.

(** ** The two arithmetics give the same keys and counts *)

(** Two loops that store, under the same keys, values with the same
    projection leave dictionaries with the same projection. *)
Lemma store_loop_fmap {A V T : Type} (g : V → T) (key : A → str)
    (val val' : A → option V) (xs : list A) (d d' : gmap str V) :
  (∀ x, g <$> val x = g <$> val' x) →
  (∀ k, g <$> d !! k = g <$> d' !! k) →
  ∀ k, g <$> foldl (fun d x => store d (key x) (val x)) d xs !! k
       = g <$> foldl (fun d x => store d (key x) (val' x)) d' xs !! k.
Proof.
  intros Hval. revert d d'.
  induction xs as [|x xs IH]; intros d d' Hd; [done|].
  cbn [foldl]. apply IH. intros k. rewrite !lookup_store.
  case_decide; [|done]. specialize (Hval x). specialize (Hd k).
  destruct (val x), (val' x); simpl in *; congruence.
Qed.

Section TwoArithmetics.

Variables W datetime : Type.
Variable now : W -> datetime * W.
Variable isoformat : datetime -> str.

Implicit Types (articles xs : list (NewsArticle datetime)).
Implicit Types (self : MarketAreaCrawler) (w : W).

(** The report computed with exact rationals and the report computed in
    floating point have the same total, the same keys in the three
    mappings and, under each key, the same count, and in the matrix the
    same market and location: the arithmetic decides the averages and the
    trends only. *)
Lemma report_counts_agree self articles w w' :
  let r := report_of W datetime now isoformat self articles w in
  let r' := Binary64.report_of W datetime now isoformat self articles w' in
  total_articles r' = total_articles r ∧
  (∀ market,
     article_count <$> report_markets r' !! market
     = article_count <$> report_markets r !! market) ∧
  (∀ location,
     article_count <$> report_locations r' !! location
     = article_count <$> report_locations r !! location) ∧
  (∀ k,
     (fun c => (cell_market c, cell_location c, cell_article_count c))
       <$> market_location_matrix r' !! k
     = (fun c => (cell_market c, cell_location c, cell_article_count c))
         <$> market_location_matrix r !! k).
Proof.
  intros r r'.
  destruct (report_of_fields W datetime now isoformat self articles w)
    as (Ht & Hm & Hl & Hx).
  destruct (float_report_of_fields W datetime now isoformat self articles w')
    as (Ht' & Hm' & Hl' & Hx').
  fold r in Ht, Hm, Hl, Hx. fold r' in Ht', Hm', Hl', Hx'.
  rewrite Ht, Ht', Hm, Hm', Hl, Hl', Hx, Hx'.
  split; [done|]. split; [|split].
  - apply (store_loop_fmap article_count (fun m : str => m)); [|done].
    intros m. by destruct (market_articles m articles).
  - apply (store_loop_fmap article_count (fun l : str => l)); [|done].
    intros l. by destruct (location_articles l articles).
  - rewrite matrix_loop_pairs, float_matrix_loop_pairs.
    apply (store_loop_fmap
             (fun c => (cell_market c, cell_location c, cell_article_count c))
             (fun p : str * str => matrix_key p.1 p.2)); [|done].
    intros [m l]. simpl. by destruct (relevant_articles m l articles).
Qed.

End TwoArithmetics.

(** ** The report over the object store *)

Section HeapFacts.

Variables W datetime : Type.
Variable now : W -> datetime * W.
Variable isoformat : datetime -> str.

Implicit Types (s : Heap.State W datetime) (l p : Heap.addr).
Implicit Types (items : list Heap.addr).
Implicit Types (xs : list (NewsArticle datetime)).
Implicit Types (a : NewsArticle datetime).
Implicit Types (self : MarketAreaCrawler).

(** The address [p] holds an article object with the attributes of [a]. *)
Abbreviation holds s :=
  (fun p a => Heap.objects s !! p = Some (Heap.ObjArticle a)).

Lemma getattr_reads {A : Type} (attr : NewsArticle datetime → A) s p a :
  holds s p a → Heap.getattr attr p s = Some (attr a, s).
Proof. intros H. unfold Heap.getattr. by rewrite H. Qed.

(** A comprehension whose condition only reads leaves the store as it
    was and selects the references of the articles that satisfy it. *)
Lemma comprehension_reads (P : NewsArticle datetime → Prop)
    `{∀ a, Decision (P a)} (cond : Heap.addr → Heap.Run W datetime bool)
    s items xs :
  (∀ p a, holds s p a → cond p s = Some (bool_decide (P a), s)) →
  Forall2 (holds s) items xs →
  ∃ items',
    Heap.comprehension cond items s = Some (items', s) ∧
    Forall2 (holds s) items' (filter P xs).
Proof.
  intros Hcond Hall. induction Hall as [|p a items xs Hp Hall IH].
  - exists []. split; [done | constructor].
  - destruct IH as (items' & Hrun & Hsel).
    cbn [Heap.comprehension]. unfold mbind, Heap.run_bind, Heap.bind.
    rewrite (Hcond p a Hp), Hrun. rewrite filter_cons.
    destruct (decide (P a)) as [HP|HP].
    + rewrite bool_decide_eq_true_2 by done.
      exists (p :: items'). split; [done | by constructor].
    + rewrite bool_decide_eq_false_2 by done. by exists items'.
Qed.

Lemma generator_reads {A : Type} (attr : NewsArticle datetime → A)
    s items xs :
  Forall2 (holds s) items xs →
  Heap.generator (Heap.getattr attr) items s = Some (attr <$> xs, s).
Proof.
  intros Hall. induction Hall as [|p a items xs Hp Hall IH]; [done|].
  cbn [Heap.generator]. unfold mbind, Heap.run_bind, Heap.bind.
  by rewrite (getattr_reads attr s p a Hp), IH.
Qed.

Lemma for_each_reads {A D : Type} (body : D → A → Heap.Run W datetime D)
    (f : D → A → D) s (d : D) (ys : list A) :
  (∀ d y, body d y s = Some (f d y, s)) →
  Heap.for_each body d ys s = Some (foldl f d ys, s).
Proof.
  intros Hbody. revert d. induction ys as [|y ys IH]; intros d; [done|].
  cbn [Heap.for_each foldl]. unfold mbind, Heap.run_bind, Heap.bind.
  by rewrite Hbody, IH.
Qed.

Lemma stats_of_reads s items xs :
  Forall2 (holds s) items xs →
  Heap.stats_of items s = Some (Binary64.stats_of xs, s).
Proof.
  intros Hall. pose proof (Forall2_length _ _ _ Hall) as Hlen.
  destruct Hall as [|p a items xs Hp Hall]; [done|].
  unfold Heap.stats_of, mbind, Heap.run_bind, Heap.bind.
  rewrite (generator_reads sentiment_score s (p :: items) (a :: xs))
    by by constructor.
  cbn [Binary64.stats_of]. unfold Heap.ret.
  unfold Binary64.avg_sentiment, Binary64.sum_sentiment.
  by rewrite Hlen.
Qed.

Lemma cell_of_reads market location s items xs :
  Forall2 (holds s) items xs →
  Heap.cell_of market location items s
  = Some (Binary64.cell_of market location xs, s).
Proof.
  intros Hall. pose proof (Forall2_length _ _ _ Hall) as Hlen.
  destruct Hall as [|p a items xs Hp Hall]; [done|].
  unfold Heap.cell_of, mbind, Heap.run_bind, Heap.bind.
  rewrite (generator_reads sentiment_score s (p :: items) (a :: xs))
    by by constructor.
  cbn [Binary64.cell_of]. unfold Heap.ret.
  unfold Binary64.avg_sentiment, Binary64.sum_sentiment.
  by rewrite Hlen.
Qed.

Lemma has_market_reads market s p a :
  holds s p a →
  Heap.has_market market p s
  = Some (bool_decide (market ∈ market_areas a), s).
Proof.
  intros Hp. unfold Heap.has_market, mbind, Heap.run_bind, Heap.bind.
  by rewrite (getattr_reads market_areas s p a Hp).
Qed.

Lemma has_location_reads location s p a :
  holds s p a →
  Heap.has_location location p s
  = Some (bool_decide (location ∈ locations a), s).
Proof.
  intros Hp. unfold Heap.has_location, mbind, Heap.run_bind, Heap.bind.
  by rewrite (getattr_reads locations s p a Hp).
Qed.

Lemma has_both_reads market location s p a :
  holds s p a →
  Heap.has_both market location p s
  = Some (bool_decide (market ∈ market_areas a ∧ location ∈ locations a),
          s).
Proof.
  intros Hp. unfold Heap.has_both, mbind, Heap.run_bind, Heap.bind.
  rewrite (has_market_reads market s p a Hp).
  destruct (decide (market ∈ market_areas a)) as [Hm|Hm].
  - rewrite (bool_decide_eq_true_2 _ Hm).
    rewrite (has_location_reads location s p a Hp).
    f_equal. f_equal. apply bool_decide_ext. tauto.
  - rewrite (bool_decide_eq_false_2 _ Hm). unfold Heap.ret.
    f_equal. f_equal. symmetry. apply bool_decide_eq_false_2. tauto.
Qed.

Lemma list_items_reads s l items :
  Heap.objects s !! l = Some (Heap.ObjList items) →
  Heap.list_items l s = Some (items, s).
Proof. intros H. unfold Heap.list_items. by rewrite H. Qed.

(** A turn of each loop, on a store in which [l] is the list of the
    articles [xs], leaves the store as it was and stores the record of
    [xs]. *)
Lemma market_turn_reads s l xs (d : gmap str Stats) (market : str) :
  Heap.articles_at s l xs →
  Heap.market_turn l d market s
  = Some (store d market (Binary64.stats_of (market_articles market xs)), s).
Proof.
  intros (items & Hl & Hall).
  destruct (comprehension_reads (fun a => market ∈ market_areas a)
              (Heap.has_market market) s items xs) as (sel & Hsel & Hfil);
    [intros p a; apply has_market_reads | done |].
  unfold Heap.market_turn, mbind, Heap.run_bind, Heap.bind.
  rewrite (list_items_reads s l items Hl), Hsel.
  by rewrite (stats_of_reads s sel _ Hfil).
Qed.

Lemma location_turn_reads s l xs (d : gmap str Stats) (location : str) :
  Heap.articles_at s l xs →
  Heap.location_turn l d location s
  = Some (store d location
            (Binary64.stats_of (location_articles location xs)), s).
Proof.
  intros (items & Hl & Hall).
  destruct (comprehension_reads (fun a => location ∈ locations a)
              (Heap.has_location location) s items xs)
    as (sel & Hsel & Hfil);
    [intros p a; apply has_location_reads | done |].
  unfold Heap.location_turn, mbind, Heap.run_bind, Heap.bind.
  rewrite (list_items_reads s l items Hl), Hsel.
  by rewrite (stats_of_reads s sel _ Hfil).
Qed.

Lemma pair_turn_reads s l xs (d : gmap str Cell) (market location : str) :
  Heap.articles_at s l xs →
  Heap.pair_turn l market d location s
  = Some (store d (matrix_key market location)
            (Binary64.cell_of market location
               (relevant_articles market location xs)), s).
Proof.
  intros (items & Hl & Hall).
  destruct (comprehension_reads
              (fun a => market ∈ market_areas a ∧ location ∈ locations a)
              (Heap.has_both market location) s items xs)
    as (sel & Hsel & Hfil);
    [intros p a; apply has_both_reads | done |].
  unfold Heap.pair_turn, mbind, Heap.run_bind, Heap.bind.
  rewrite (list_items_reads s l items Hl), Hsel.
  by rewrite (cell_of_reads market location s sel _ Hfil).
Qed.

(** A run of [generate_market_report] on a store in which [l] is the list
    of the articles [xs] changes nothing but the clock, and returns the
    report of [xs]. *)
Lemma generate_market_report_reads self s l xs :
  Heap.articles_at s l xs →
  Heap.generate_market_report now isoformat self l s
  = Some ({| timestamp := isoformat (now (Heap.world s)).1;
             total_articles := length xs;
             report_markets := Binary64.markets_loop self xs;
             report_locations := Binary64.locations_loop self xs;
             market_location_matrix := Binary64.matrix_loop self xs |},
          {| Heap.objects := Heap.objects s;
             Heap.world := (now (Heap.world s)).2 |}).
Proof.
  intros Hat.
  unfold Heap.generate_market_report, mbind, Heap.run_bind, Heap.bind.
  unfold Heap.clock. destruct (now (Heap.world s)) as [d w1]. simpl.
  set (s1 := {| Heap.objects := Heap.objects s; Heap.world := w1 |}).
  assert (Heap.articles_at s1 l xs) as Hat1 by done.
  destruct Hat1 as (items & Hl & Hall).
  rewrite (list_items_reads s1 l items Hl).
  rewrite (for_each_reads (Heap.market_turn l)
             (fun d market =>
                store d market
                  (Binary64.stats_of (market_articles market xs))))
    by (intros; apply market_turn_reads; by exists items).
  rewrite (for_each_reads (Heap.location_turn l)
             (fun d location =>
                store d location
                  (Binary64.stats_of (location_articles location xs))))
    by (intros; apply location_turn_reads; by exists items).
  rewrite (for_each_reads
             (fun matrix market =>
                Heap.for_each (Heap.pair_turn l market) matrix
                  (self_locations self))
             (fun d market =>
                foldl (fun d location =>
                         store d (matrix_key market location)
                           (Binary64.cell_of market location
                              (relevant_articles market location xs)))
                      d (self_locations self))).
  - unfold Heap.ret. by rewrite (Forall2_length _ _ _ Hall).
  - intros matrix market. apply for_each_reads.
    intros; apply pair_turn_reads; by exists items.
Qed.

(** C8. On a store in which [l] is the list of the articles [xs], a run
    of the report generation returns, and a second run after it returns
    too, with the same markets, locations and matrix mappings and the same
    total; these are the mappings of [xs], so a run on any store that
    holds the same articles in a list, at any addresses and at any time,
    gives them again. No object of the store is changed by a run: the list
    [l] holds the same references and every article has the same
    attributes after each run. *)
Theorem report_deterministic self l s xs :
  Heap.articles_at s l xs →
  ∃ r1 s1 r2 s2,
    Heap.generate_market_report now isoformat self l s = Some (r1, s1) ∧
    Heap.generate_market_report now isoformat self l s1 = Some (r2, s2) ∧
    (report_markets r1 = report_markets r2 ∧
     report_locations r1 = report_locations r2 ∧
     market_location_matrix r1 = market_location_matrix r2 ∧
     total_articles r1 = total_articles r2) ∧
    (Heap.objects s1 = Heap.objects s ∧
     Heap.objects s2 = Heap.objects s ∧
     Heap.articles_at s1 l xs ∧ Heap.articles_at s2 l xs) ∧
    (report_markets r1 = Binary64.markets_loop self xs ∧
     report_locations r1 = Binary64.locations_loop self xs ∧
     market_location_matrix r1 = Binary64.matrix_loop self xs ∧
     total_articles r1 = length xs) ∧
    (∀ s' l',
       Heap.articles_at s' l' xs →
       ∃ r' s'',
         Heap.generate_market_report now isoformat self l' s'
         = Some (r', s'') ∧
         report_markets r' = report_markets r1 ∧
         report_locations r' = report_locations r1 ∧
         market_location_matrix r' = market_location_matrix r1 ∧
         total_articles r' = total_articles r1).
Proof.
  intros Hat.
  pose proof (generate_market_report_reads self s l xs Hat) as Hrun1.
  set (s1 := {| Heap.objects := Heap.objects s;
                Heap.world := (now (Heap.world s)).2 |}) in *.
  assert (Heap.articles_at s1 l xs) as Hat1 by done.
  pose proof (generate_market_report_reads self s1 l xs Hat1) as Hrun2.
  set (s2 := {| Heap.objects := Heap.objects s1;
                Heap.world := (now (Heap.world s1)).2 |}) in *.
  eexists _, s1, _, s2. split; [exact Hrun1|]. split; [exact Hrun2|].
  split; [done|]. split; [done|]. split; [done|].
  intros s' l' Hat'. eexists _, _.
  split; [exact (generate_market_report_reads self s' l' xs Hat')|]. done.
Qed.

End HeapFacts.

(** ** The effective vocabulary *)

Section EffectiveVocabulary.

Variable lower : str -> str.
Variables W datetime : Type.
Variable now : W -> datetime * W.
Variable isoformat : datetime -> str.
Variable fetch_page : str -> W -> option str * W.
Variable extract_text_from_html : str -> str.
Variable extract_articles_from_page : str -> str -> list ArticleData.
Variable analyze_sentiment : str -> Q.

Abbreviation crawl_by :=
  (crawl lower W datetime now fetch_page extract_text_from_html
     extract_articles_from_page analyze_sentiment).
Abbreviation report_at := (report_of W datetime now isoformat).
Abbreviation run_analysis' :=
  (run_analysis lower W datetime now isoformat fetch_page
     extract_text_from_html extract_articles_from_page analyze_sentiment).

(** The tags of a crawled article are tracked keys of the dictionaries. *)
Lemma crawl_tags self websites w (a : NewsArticle datetime) :
  a ∈ (crawl_by self websites w).1 →
  (∀ c, c ∈ market_areas a →
        c ∈ self_market_areas self ∧ c ∈ keys (market_keywords self)) ∧
  (∀ c, c ∈ locations a →
        c ∈ self_locations self ∧ c ∈ keys (location_keywords self)).
Proof.
  intros (ad & text & w0 & w1 & Hc)%crawl_elem.
  destruct (classify_Some _ _ _ _ _ _ _ _ _ _ _ Hc) as (-> & -> & _).
  split; intros c Hin.
  - split; [by apply find_market_areas_spec in Hin as [? _]|].
    by apply scan_keywords_keys in Hin.
  - split; [by apply find_locations_spec in Hin as [? _]|].
    by apply scan_keywords_keys in Hin.
Qed.

(** A market that no article of a crawl can carry has no record. *)
Lemma crawl_report_no_market self websites w w' (market : str) :
  market ∉ keys (market_keywords self) →
  let articles := (crawl_by self websites w).1 in
  let r := report_at self articles w' in
  (∀ text, market ∉ find_market_areas lower self text) ∧
  (∀ a, a ∈ articles → market ∉ market_areas a) ∧
  report_markets r !! market = None ∧
  (∀ k c, market_location_matrix r !! k = Some c → cell_market c ≠ market).
Proof.
  intros Hkey articles r. subst articles r.
  assert (∀ a, a ∈ (crawl_by self websites w).1 → market ∉ market_areas a)
    as Hno.
  { intros a [Hm _]%crawl_tags Hin. apply Hkey. by apply Hm. }
  split; [intros text Hin%scan_keywords_keys; by apply Hkey|].
  split; [done|]. split.
  - rewrite report_markets_lookup. case_decide; [|done].
    apply stats_of_None.
    destruct (market_articles market _) as [|a xs] eqn:Hf; [done|].
    assert (a ∈ market_articles market (crawl_by self websites w).1)
      as [Ha Hin]%elem_of_market_articles by (rewrite Hf; left).
    by destruct (Hno a Ha).
  - intros k c
      (m & l & _ & _ & _ & [Hne ->]%cell_of_Some)%report_matrix_Some.
    simpl. intros ->.
    destruct (relevant_articles market l _) as [|a xs] eqn:Hf; [done|].
    assert (a ∈ relevant_articles market l (crawl_by self websites w).1)
      as (Ha & Hin & _)%elem_of_relevant_articles by (rewrite Hf; left).
    by destruct (Hno a Ha).
Qed.

Lemma crawl_report_no_location self websites w w' (location : str) :
  location ∉ keys (location_keywords self) →
  let articles := (crawl_by self websites w).1 in
  let r := report_at self articles w' in
  (∀ text, location ∉ find_locations lower self text) ∧
  (∀ a, a ∈ articles → location ∉ locations a) ∧
  report_locations r !! location = None ∧
  (∀ k c, market_location_matrix r !! k = Some c →
          cell_location c ≠ location).
Proof.
  intros Hkey articles r. subst articles r.
  assert (∀ a, a ∈ (crawl_by self websites w).1 → location ∉ locations a)
    as Hno.
  { intros a [_ Hl]%crawl_tags Hin. apply Hkey. by apply Hl. }
  split; [intros text Hin%scan_keywords_keys; by apply Hkey|].
  split; [done|]. split.
  - rewrite report_locations_lookup. case_decide; [|done].
    apply stats_of_None.
    destruct (location_articles location _) as [|a xs] eqn:Hf; [done|].
    assert (a ∈ location_articles location (crawl_by self websites w).1)
      as [Ha Hin]%elem_of_location_articles by (rewrite Hf; left).
    by destruct (Hno a Ha).
  - intros k c
      (m & l & _ & _ & _ & [Hne ->]%cell_of_Some)%report_matrix_Some.
    simpl. intros ->.
    destruct (relevant_articles m location _) as [|a xs] eqn:Hf; [done|].
    assert (a ∈ relevant_articles m location (crawl_by self websites w).1)
      as (Ha & _ & Hin)%elem_of_relevant_articles by (rewrite Hf; left).
    by destruct (Hno a Ha).
Qed.

(** The report of [run_analysis] is the report of its crawl. *)
Lemma run_analysis_report websites w r w' :
  run_analysis' websites w = (Some r, w') →
  ∃ w1, r = report_at (init lower MARKET_AREAS LOCATIONS)
              (crawl_by (init lower MARKET_AREAS LOCATIONS) websites w).1 w1.
Proof.
  unfold run_analysis. intros Hrun.
  destruct (crawl_by (init lower MARKET_AREAS LOCATIONS) websites w)
    as [all_articles w1] eqn:Hcrawl.
  destruct all_articles as [|a0 rest]; [done|].
  destruct (generate_market_report W datetime now isoformat
              (init lower MARKET_AREAS LOCATIONS)
              {| mem_articles := a0 :: rest; mem_world := w1 |})
    as [report m] eqn:Hgen.
  injection Hrun as <- _. exists w1. unfold report_of. simpl.
  by rewrite Hgen.
Qed.

(** C10. The tagger of a crawler built by [__init__] returns only
    categories that are both in the (lowered) tracked list and keys of the
    built-in keyword dictionary, and so do the tags of every article of a
    crawl. A market or location that is not a key of the built-in
    dictionary therefore has no record in the report of a crawl, neither
    under its own key nor in the matrix; ["salute"], ["turismo"],
    ["francia"] and ["regno unito"] of the shipped configuration are such
    categories, and the report of [run_analysis] has no record for them. *)
Theorem effective_vocabulary (market_areas_arg locations_arg : list str) :
  let self := init lower market_areas_arg locations_arg in
  (∀ text c,
     c ∈ find_market_areas lower self text →
     c ∈ lower <$> market_areas_arg ∧ c ∈ keys init_market_keywords) ∧
  (∀ text c,
     c ∈ find_locations lower self text →
     c ∈ lower <$> locations_arg ∧ c ∈ keys init_location_keywords) ∧
  (∀ websites w a,
     a ∈ (crawl_by self websites w).1 →
     (∀ c, c ∈ market_areas a → c ∈ keys init_market_keywords) ∧
     (∀ c, c ∈ locations a → c ∈ keys init_location_keywords)) ∧
  (∀ websites w w' market,
     market ∉ keys init_market_keywords →
     let articles := (crawl_by self websites w).1 in
     let r := report_at self articles w' in
     (∀ text, market ∉ find_market_areas lower self text) ∧
     (∀ a, a ∈ articles → market ∉ market_areas a) ∧
     report_markets r !! market = None ∧
     (∀ k c, market_location_matrix r !! k = Some c →
             cell_market c ≠ market)) ∧
  (∀ websites w w' location,
     location ∉ keys init_location_keywords →
     let articles := (crawl_by self websites w).1 in
     let r := report_at self articles w' in
     (∀ text, location ∉ find_locations lower self text) ∧
     (∀ a, a ∈ articles → location ∉ locations a) ∧
     report_locations r !! location = None ∧
     (∀ k c, market_location_matrix r !! k = Some c →
             cell_location c ≠ location)) ∧
  ((lit "salute" ∉ keys init_market_keywords) ∧
   (lit "turismo" ∉ keys init_market_keywords) ∧
   (lit "francia" ∉ keys init_location_keywords) ∧
   (lit "regno unito" ∉ keys init_location_keywords)) ∧
  (∀ websites w r w',
     run_analysis' websites w = (Some r, w') →
     report_markets r !! lit "salute" = None ∧
     report_markets r !! lit "turismo" = None ∧
     report_locations r !! lit "francia" = None ∧
     report_locations r !! lit "regno unito" = None).
Proof.
  intros self.
  assert ((lit "salute" ∉ keys init_market_keywords) ∧
          (lit "turismo" ∉ keys init_market_keywords) ∧
          (lit "francia" ∉ keys init_location_keywords) ∧
          (lit "regno unito" ∉ keys init_location_keywords))
    as (Hsalute & Hturismo & Hfrancia & Hregno)
    by (repeat split; by_computation).
  split; [|split; [|split; [|split; [|split; [|split]]]]].
  - intros text c Hin.
    split; [by apply find_market_areas_spec in Hin as [? _]|].
    by apply scan_keywords_keys in Hin.
  - intros text c Hin.
    split; [by apply find_locations_spec in Hin as [? _]|].
    by apply scan_keywords_keys in Hin.
  - intros websites w a [Hm Hl]%crawl_tags.
    split; intros c Hc; [by apply Hm | by apply Hl].
  - intros websites w w' market Hkey.
    by apply crawl_report_no_market.
  - intros websites w w' location Hkey.
    by apply crawl_report_no_location.
  - done.
  - intros websites w r w' [w1 ->]%run_analysis_report.
    split; [by apply crawl_report_no_market|].
    split; [by apply crawl_report_no_market|].
    split; by apply crawl_report_no_location.
Qed.

End EffectiveVocabulary.

(** ** Composite keys *)

Lemma matrix_key_inj (m m' l l' : str) :
  95%N ∉ m → 95%N ∉ m' →
  matrix_key m l = matrix_key m' l' → m = m' ∧ l = l'.
Proof.
  unfold matrix_key. change (lit "_") with [95%N].
  revert m'. induction m as [|c m IH]; intros [|c' m'] Hm Hm' H;
    simpl in H.
  - by injection H.
  - injection H as <- _. exfalso. apply Hm'. left.
  - injection H as -> _. exfalso. apply Hm. left.
  - injection H as -> H.
    destruct (IH m') as [-> ->]; [| |done..].
    + intros ?. apply Hm. by right.
    + intros ?. apply Hm'. by right.
Qed.

(** When no tracked market has an underscore in its name, the composite
    key of every pair is unambiguous. *)
Lemma key_unambiguous_no_underscore self (market location : str) :
  (∀ m, m ∈ self_market_areas self → 95%N ∉ m) →
  market ∈ self_market_areas self →
  key_unambiguous self market location.
Proof.
  intros Hno Hm m' l' Hm' _ Heq.
  apply (matrix_key_inj m' market l' location); auto.
Qed.

Lemma key_unambiguous_Forall self (market location : str) :
  Forall (fun p : str * str =>
            matrix_key p.1 p.2 = matrix_key market location →
            p = (market, location))
    (list_prod (self_market_areas self) (self_locations self)) →
  key_unambiguous self market location.
Proof.
  intros H m' l' Hm' Hl' Heq. rewrite Forall_forall in H.
  assert ((m', l') = (market, location)) as [= -> ->]; [|done].
  apply H; [|done]. by apply elem_of_list_prod_iff.
Qed.

(** The pairs of the shipped configuration have unambiguous keys. *)
Lemma shipped_key_unambiguous (market location : str) :
  market ∈ self_market_areas shipped →
  key_unambiguous shipped market location.
Proof.
  apply key_unambiguous_no_underscore.
  apply Forall_forall. by_computation.
Qed.

(** ** The properties on concrete inputs *)

(** The examples of the specification. *)

Example mean_correctness :
  report_markets (demo_report shipped mean_articles 0) !! lit "tecnologia"
  = Some {| article_count := 2; average_sentiment := 60;
            sentiment_trend := lit "neutral" |}.
Proof. by vm_compute. Qed.

Example discard_without_location :
  find_market_areas latin_lower shipped (lit "New software startup")
  = [lit "tecnologia"] ∧
  find_locations latin_lower shipped (lit "New software startup") = [] ∧
  demo_analyze_website shipped (lit "New software startup") 0 = ([], 0).
Proof. by vm_compute. Qed.

Example matrix_completeness :
  let matrix :=
    market_location_matrix (demo_report grid_crawler grid_articles 0) in
  matrix !! matrix_key (lit "a") (lit "x")
  = Some (mkCell (lit "a") (lit "x") 1 50 (lit "neutral")) ∧
  matrix !! matrix_key (lit "a") (lit "y")
  = Some (mkCell (lit "a") (lit "y") 1 50 (lit "neutral")) ∧
  matrix !! matrix_key (lit "b") (lit "x") = None ∧
  matrix !! matrix_key (lit "b") (lit "y") = None.
Proof. by vm_compute. Qed.

Example end_to_end :
  let self := init latin_lower [lit "tech"] [lit "italia"; lit "usa"] in
  let articles := [ tagged 90 [lit "tech"] [lit "italia"];
                    tagged 10 [lit "tech"] [lit "usa"] ] in
  let r := demo_report self articles 0 in
  total_articles r = 2 ∧
  report_markets r = {[ lit "tech" := mkStats 2 50 (lit "neutral") ]} ∧
  report_locations r !! lit "italia"
  = Some (mkStats 1 90 (lit "positive")) ∧
  report_locations r !! lit "usa" = Some (mkStats 1 10 (lit "negative")) ∧
  market_location_matrix r
  = {[ lit "tech_italia" :=
         mkCell (lit "tech") (lit "italia") 1 90 (lit "positive");
       lit "tech_usa" :=
         mkCell (lit "tech") (lit "usa") 1 10 (lit "negative") ]}.
Proof. by vm_compute. Qed.

(** ** The report in binary floating point, on concrete inputs *)



(** The example of the specification, in floating point. *)
Example float_mean_correctness :
  report_markets (demo_float_report shipped mean_articles 0)
    !! lit "tecnologia"
  = Some {| article_count := 2; average_sentiment := 60;
            sentiment_trend := lit "neutral" |}.
Proof. by vm_compute. Qed.





(** C6, on the two articles of the example. *)
Lemma no_empty_entries_witness :
  report_markets (demo_report shipped mean_articles 0) !! lit "tecnologia"
  = Some (mkStats 2 60 (lit "neutral")) ∧
  1 ≤ article_count (mkStats 2 60 (lit "neutral")) ∧
  market_articles (lit "finanza") mean_articles = [] ∧
  report_markets (demo_report shipped mean_articles 0) !! lit "finanza"
  = None ∧
  key_unambiguous shipped (lit "finanza") (lit "italia") ∧
  relevant_articles (lit "finanza") (lit "italia") mean_articles = [] ∧
  market_location_matrix (demo_report shipped mean_articles 0)
    !! matrix_key (lit "finanza") (lit "italia") = None.
Proof.
  destruct (no_empty_entries nat nat demo_now demo_isoformat
              shipped mean_articles 0)
    as (Hm & _ & _ & Hnone & _ & _ & _ & Hpair).
  assert (report_markets (demo_report shipped mean_articles 0)
            !! lit "tecnologia" = Some (mkStats 2 60 (lit "neutral")))
    as He by by vm_compute.
  assert (key_unambiguous shipped (lit "finanza") (lit "italia")) as Hkey
    by (apply shipped_key_unambiguous; by_computation).
  assert (relevant_articles (lit "finanza") (lit "italia") mean_articles
          = []) as Hempty by by vm_compute.
  split; [exact He|]. split; [|split; [by vm_compute|split]].
  - by destruct (Hm _ _ He) as (_ & _ & _ & Hge).
  - apply Hnone. by vm_compute.
  - split; [exact Hkey|]. split; [exact Hempty|].
    exact (Hpair _ _ Hkey Hempty).
Defined.

(** C6 as stated fails. The crawler tracks the markets a_b, a and the
    locations c, b_c, and the only article is on a and in b_c. The tracked
    pair (a_b, c) has an empty matching subset, and yet its composite key
    is a key of the matrix, with count 1: it is also the key of the pair
    (a, b_c). *)
Lemma no_empty_entries_counterexample :
  let m := lit "a_b" in
  let l := lit "c" in
  let r := demo_report overlap_crawler [overlap_second] 0 in
  (m ∈ self_market_areas overlap_crawler ∧
   l ∈ self_locations overlap_crawler) ∧
  relevant_articles m l [overlap_second] = [] ∧
  market_location_matrix r !! matrix_key m l
  = Some (mkCell (lit "a") (lit "b_c") 1 90 (lit "positive")) ∧
  matrix_count r m l = 1.
Proof.
  intros m l r.
  split; [split; by_computation|].
  split; [by vm_compute|]. split; by vm_compute.
Qed.

(** C7 (amended), at a pair of the shipped configuration. *)
Lemma matrix_contribution_witness :
  lit "tecnologia" ∈ self_market_areas shipped ∧
  lit "usa" ∈ self_locations shipped ∧
  key_unambiguous shipped (lit "tecnologia") (lit "usa") ∧
  matrix_count (demo_report shipped mean_articles 0)
    (lit "tecnologia") (lit "usa") = 1 ∧
  matrix_count
    (demo_report shipped
       (mean_articles ++ [tagged 70 [lit "tecnologia"] [lit "usa"]]) 0)
    (lit "tecnologia") (lit "usa") = 2.
Proof.
  assert (lit "tecnologia" ∈ self_market_areas shipped) as Hm
    by by_computation.
  assert (lit "usa" ∈ self_locations shipped) as Hl by by_computation.
  assert (key_unambiguous shipped (lit "tecnologia") (lit "usa")) as Hkey
    by by apply shipped_key_unambiguous.
  destruct (matrix_contribution nat nat demo_now demo_isoformat
              shipped mean_articles 0 (lit "tecnologia") (lit "usa")
              Hm Hl Hkey) as (_ & _ & Hcount & Hstep).
  split; [done|]. split; [done|]. split; [done|]. split.
  - unfold demo_report. rewrite Hcount. by vm_compute.
  - unfold demo_report. rewrite (Hstep _ 0), Hcount. by vm_compute.
Defined.

(** C7 as stated fails where two tracked pairs share a composite key. The
    article [overlap_second] is not on the market a_b, and yet it is counted
    in the record under the key of the pair (a_b, c); the article
    [overlap_first] is on a_b and in c, and yet the record under that key is
    computed without it, and no record of the report is that of the pair
    (a_b, c). *)
Lemma matrix_contribution_counterexample :
  let m := lit "a_b" in
  let l := lit "c" in
  let r := demo_report overlap_crawler [overlap_first; overlap_second] 0 in
  (m ∈ self_market_areas overlap_crawler ∧
   l ∈ self_locations overlap_crawler) ∧
  ((m ∉ market_areas overlap_second) ∧
   matrix_count (demo_report overlap_crawler [] 0) m l = 0 ∧
   matrix_count (demo_report overlap_crawler [overlap_second] 0) m l = 1) ∧
  (m ∈ market_areas overlap_first ∧ l ∈ locations overlap_first ∧
   market_location_matrix r !! matrix_key m l
   = cell_of (lit "a") (lit "b_c") [overlap_second] ∧
   ∀ k c, market_location_matrix r !! k = Some c →
          ¬ (cell_market c = m ∧ cell_location c = l)).
Proof.
  intros m l r.
  assert (market_location_matrix r
          = {[ lit "a_b_c" :=
                 mkCell (lit "a") (lit "b_c") 1 90 (lit "positive") ]})
    as Hmatrix by by vm_compute.
  split; [split; by_computation|]. split; [|split; [|split; [|split]]].
  - split; [by_computation|]. split; by vm_compute.
  - by_computation.
  - by_computation.
  - by vm_compute.
  - intros k c Hc [Hm _]. rewrite Hmatrix in Hc.
    apply lookup_singleton_Some in Hc as [_ <-]. by vm_compute in Hm.
Qed.

(** ** The report over the object store, on a concrete store *)

Lemma demo_state_articles :
  Heap.articles_at demo_state 0 [demo_first; demo_second; demo_first].
Proof.
  exists [1; 2; 1]. split; [by vm_compute|].
  repeat constructor; by vm_compute.
Qed.

(** C8, on a store whose list holds one article object twice. *)
Lemma report_deterministic_witness :
  Heap.articles_at demo_state 0 [demo_first; demo_second; demo_first] ∧
  ∃ r1 s1 r2 s2,
    demo_heap_report shipped 0 demo_state = Some (r1, s1) ∧
    demo_heap_report shipped 0 s1 = Some (r2, s2) ∧
    report_markets r1 = report_markets r2 ∧
    market_location_matrix r1 = market_location_matrix r2 ∧
    Heap.objects s2 = Heap.objects demo_state ∧
    total_articles r1 = 3 ∧
    report_markets r1 !! lit "energia"
    = Some (mkStats 1 40 (lit "neutral")).
Proof.
  split; [exact demo_state_articles|].
  destruct (report_deterministic nat nat demo_now demo_isoformat shipped 0
              demo_state _ demo_state_articles)
    as (r1 & s1 & r2 & s2 & Hrun1 & Hrun2 & Hsame & Hkept & Hval & _).
  exists r1, s1, r2, s2.
  destruct Hsame as (Hm & _ & Hx & _).
  destruct Hkept as (_ & Hobj & _).
  destruct Hval as (Hmarkets & _ & _ & Htotal).
  split; [exact Hrun1|]. split; [exact Hrun2|]. split; [exact Hm|].
  split; [exact Hx|]. split; [exact Hobj|]. split; [exact Htotal|].
  rewrite Hmarkets. by vm_compute.
Defined.

(** The store does decide the report: after [append] has put one more
    reference into the list, a run counts it. *)
Example report_after_append :
  ∃ r s r' s',
    demo_heap_report shipped 0 demo_state = Some (r, s) ∧
    Heap.bind (Heap.list_append 0 2)
      (fun _ => demo_heap_report shipped 0) demo_state = Some (r', s') ∧
    total_articles r = 3 ∧ total_articles r' = 4 ∧
    Heap.objects s !! 0 = Some (Heap.ObjList [1; 2; 1]) ∧
    Heap.objects s' !! 0 = Some (Heap.ObjList [1; 2; 1; 2]).
Proof.
  eexists _, _, _, _.
  split; [vm_compute; reflexivity|]. split; [vm_compute; reflexivity|].
  split; [reflexivity|]. split; [reflexivity|].
  split; vm_compute; reflexivity.
Qed.

(** C5, at a page that names a market and a location. *)
Lemma article_iff_market_and_location_witness :
  ∃ a, (demo_analyze_website shipped (lit "Tech in Italia") 0).1 = [a] ∧
       market_areas a = [lit "tecnologia"] ∧
       locations a = [lit "italia"] ∧
       market_areas a ≠ [] ∧ locations a ≠ [].
Proof.
  eexists. split; [by vm_compute|]. split; [done|]. split; [done|].
  destruct (article_iff_market_and_location latin_lower nat nat demo_now
              demo_fetch_page demo_extract_text demo_extract_articles
              demo_sentiment shipped) as (_ & _ & Hsite & _).
  apply (Hsite (lit "Tech in Italia") 0).
  assert ((demo_analyze_website shipped (lit "Tech in Italia") 0).1
          = [mkNewsArticle (lit "headline") (lit "Tech in Italia")
               (lit "Tech in Italia") (Some 0) [lit "tecnologia"]
               [lit "italia"] 50]) as Hrun by by vm_compute.
  unfold demo_analyze_website in Hrun. rewrite Hrun. left.
Defined.

(** C9, at a page of 2015 characters. *)
Lemma content_truncated_witness :
  length long_page = 2015 ∧
  ∃ a, (demo_analyze_website shipped long_page 0).1 = [a] ∧
       content a = take 1000 long_page ∧
       length (content a) ≤ 1000.
Proof.
  split; [by vm_compute|].
  assert (∃ a, (demo_analyze_website shipped long_page 0).1 = [a] ∧
               content a = take 1000 long_page) as (a & Hrun & Hcontent).
  { eexists. split; by vm_compute. }
  exists a. split; [exact Hrun|]. split; [exact Hcontent|].
  destruct (content_truncated latin_lower nat nat demo_now
              demo_fetch_page demo_extract_text demo_extract_articles
              demo_sentiment shipped) as (_ & Hsite & _).
  apply (Hsite long_page 0).
  unfold demo_analyze_website in Hrun. rewrite Hrun. left.
Defined.

(** C10, at the market ["salute"] of the shipped configuration. *)
Lemma effective_vocabulary_witness :
  let articles :=
    (demo_crawl shipped [lit "La salute e il tech in Italia"] 0).1 in
  lit "salute" ∈ self_market_areas shipped ∧
  (lit "salute" ∉ keys init_market_keywords) ∧
  length articles = 1 ∧
  report_markets (demo_report shipped articles 7) !! lit "salute" = None ∧
  is_Some (report_markets (demo_report shipped articles 7)
             !! lit "tecnologia").
Proof.
  intros articles.
  assert (lit "salute" ∉ keys init_market_keywords) as Hkey
    by by_computation.
  split; [by_computation|]. split; [exact Hkey|].
  split; [by vm_compute|]. split; [|vm_compute; by eexists].
  destruct (effective_vocabulary latin_lower nat nat demo_now demo_isoformat
              demo_fetch_page demo_extract_text demo_extract_articles
              demo_sentiment MARKET_AREAS LOCATIONS)
    as (_ & _ & _ & Hm & _).
  by destruct (Hm [lit "La salute e il tech in Italia"] 0 7
                 (lit "salute") Hkey) as (_ & _ & Hnone & _).
Defined.

(** * Further properties *)

(** ** Rounding and the sentiment score *)

Lemma inject_Z_lt_succ (a b : Z) :
  (inject_Z a < inject_Z b + 1)%Q → (a <= b)%Z.
Proof.
  intros H. change 1%Q with (inject_Z 1) in H.
  rewrite <- inject_Z_plus, <- Zlt_Qlt in H. lia.
Qed.

(** Rounding to the nearest integer is monotone. *)
Lemma round_half_even_mono (x y : Q) :
  (x <= y)%Q → (round_half_even x <= round_half_even y)%Z.
Proof.
  intros Hxy.
  destruct (Qlt_le_dec x y) as [Hlt|Hge].
  - pose proof (round_half_even_near x) as Hx.
    pose proof (round_half_even_near y) as Hy.
    apply Qabs_Qle_condition in Hx as [Hx _].
    apply Qabs_Qle_condition in Hy as [_ Hy].
    apply inject_Z_lt_succ. lra.
  - rewrite (round_half_even_comp x y); [lia|]. by apply Qle_antisym.
Qed.

Lemma py_round_mono (x y : Q) :
  (x <= y)%Q → (py_round x 2 <= py_round y 2)%Q.
Proof.
  intros Hxy. unfold py_round.
  change (inject_Z (10 ^ Z.of_nat 2)) with 100%Q.
  rewrite !Qred_correct.
  apply Qmult_le_r with (z := 100%Q); [reflexivity|].
  assert (inject_Z (round_half_even (x * 100))
          <= inject_Z (round_half_even (y * 100)))%Q as H.
  { rewrite <- Zle_Qle. apply round_half_even_mono. lra. }
  field_simplify. lra.
Qed.

(** A whole number of hundredths rounds to itself. *)
Lemma py_round_hundredths (k : Z) :
  (py_round (inject_Z k / 100) 2 == inject_Z k / 100)%Q.
Proof.
  unfold py_round. change (inject_Z (10 ^ Z.of_nat 2)) with 100%Q.
  rewrite Qred_correct.
  assert (round_half_even (inject_Z k / 100 * 100) = k) as ->; [|reflexivity].
  rewrite (round_half_even_comp _ (inject_Z k)) by (field; discriminate).
  unfold round_half_even. rewrite Qfloor_Z.
  assert ((inject_Z k - inject_Z k ?= 1 # 2)%Q = Lt) as ->; [|done].
  apply (proj1 (Qlt_alt _ _)). lra.
Qed.

(** The score of a polarity in [-1, 1] is between 0 and 100. *)
Lemma analyze_sentiment_bounds (polarity : str -> option Q) (text : str) :
  (∀ p, polarity text = Some p → (-1 <= p)%Q ∧ (p <= 1)%Q) →
  (0 <= analyze_sentiment polarity text)%Q ∧
  (analyze_sentiment polarity text <= 100)%Q.
Proof.
  unfold analyze_sentiment. intros Hrange.
  destruct (polarity text) as [p|] eqn:Hp; [|split; discriminate].
  destruct (Hrange p eq_refl) as [Hlo Hhi]. split.
  - change 0%Q with (py_round 0 2). apply py_round_mono. lra.
  - change 100%Q with (py_round 100 2). apply py_round_mono. lra.
Qed.

(** X1. The sentiment score of a text whose polarity is in [-1, 1] is a
    whole number of hundredths between 0 and 100; it is 50 when the library
    raises and when the polarity is 0; and a text of higher polarity never
    has a lower score. *)
Theorem analyze_sentiment_range (polarity : str -> option Q) (text : str) :
  ((∀ p, polarity text = Some p → (-1 <= p)%Q ∧ (p <= 1)%Q) →
   (0 <= analyze_sentiment polarity text)%Q ∧
   (analyze_sentiment polarity text <= 100)%Q ∧
   ∃ k : Z, (analyze_sentiment polarity text == inject_Z k / 100)%Q) ∧
  (polarity text = None → analyze_sentiment polarity text = 50%Q) ∧
  (polarity text = Some 0%Q → analyze_sentiment polarity text = 50%Q) ∧
  (∀ text' p p',
     polarity text = Some p → polarity text' = Some p' → (p <= p')%Q →
     (analyze_sentiment polarity text <= analyze_sentiment polarity text')%Q).
Proof.
  unfold analyze_sentiment. split; [|split; [|split]].
  - intros Hrange. destruct (polarity text) as [p|] eqn:Hp.
    + destruct (Hrange p eq_refl) as [Hlo Hhi].
      split; [|split].
      * change 0%Q with (py_round 0 2). apply py_round_mono. lra.
      * change 100%Q with (py_round 100 2). apply py_round_mono. lra.
      * destruct (py_round_2_spec ((p + 1) * 50)) as (k & Hk & _).
        by exists k.
    + split; [discriminate|]. split; [discriminate|].
      exists 5000%Z. reflexivity.
  - by intros ->.
  - by intros ->.
  - intros text' p p' -> -> Hle. apply py_round_mono. lra.
Qed.

(** ** Bounds and consistency of the report *)

Section ReportBounds.

Variables W datetime : Type.
Variable now : W -> datetime * W.
Variable isoformat : datetime -> str.

Implicit Types (articles xs : list (NewsArticle datetime)).
Implicit Types (a : NewsArticle datetime).
Implicit Types (self : MarketAreaCrawler) (w : W).

Abbreviation report_in := (report_of W datetime now isoformat).

Lemma sum_scores_bounds xs (lo hi : Q) :
  (∀ a, a ∈ xs → (lo <= sentiment_score a)%Q ∧ (sentiment_score a <= hi)%Q) →
  (inject_Z (Z.of_nat (length xs)) * lo
   <= foldr Qplus 0 (sentiment_score <$> xs))%Q ∧
  (foldr Qplus 0 (sentiment_score <$> xs)
   <= inject_Z (Z.of_nat (length xs)) * hi)%Q.
Proof.
  induction xs as [|a xs IH]; intros Hall.
  - cbn. change (inject_Z (Z.of_nat 0)) with 0%Q. split; lra.
  - destruct IH as [IHlo IHhi]; [intros a' Ha'; apply Hall; by right|].
    destruct (Hall a) as [Hlo Hhi]; [left|].
    rewrite fmap_cons. cbn [foldr length].
    rewrite Nat2Z.inj_succ, <- Z.add_1_r, inject_Z_plus.
    change (inject_Z 1) with 1%Q.
    set (n := inject_Z (Z.of_nat (length xs))) in *.
    assert ((n + 1) * lo == n * lo + lo)%Q as -> by ring.
    assert ((n + 1) * hi == n * hi + hi)%Q as -> by ring.
    split; lra.
Qed.

(** The mean of scores between two bounds is between the bounds. *)
Lemma avg_sentiment_bounds xs (lo hi : Q) :
  xs ≠ [] →
  (∀ a, a ∈ xs → (lo <= sentiment_score a)%Q ∧ (sentiment_score a <= hi)%Q) →
  (lo <= avg_sentiment xs)%Q ∧ (avg_sentiment xs <= hi)%Q.
Proof.
  intros Hne Hall.
  destruct (sum_scores_bounds xs lo hi Hall) as [Hlo Hhi].
  assert (0 < inject_Z (Z.of_nat (length xs)))%Q as Hn.
  { change 0%Q with (inject_Z 0). rewrite <- Zlt_Qlt.
    destruct xs; [done | simpl; lia]. }
  rewrite avg_sentiment_mean. unfold arithmetic_mean.
  rewrite length_fmap. split.
  - apply Qle_shift_div_l; [done|]. by rewrite Qmult_comm.
  - apply Qle_shift_div_r; [done|]. by rewrite Qmult_comm.
Qed.

Lemma filter_subset_bounds (P : NewsArticle datetime → Prop)
    `{∀ a, Decision (P a)} articles (lo hi : Q) :
  (∀ a, a ∈ articles →
        (lo <= sentiment_score a)%Q ∧ (sentiment_score a <= hi)%Q) →
  ∀ a, a ∈ filter P articles →
       (lo <= sentiment_score a)%Q ∧ (sentiment_score a <= hi)%Q.
Proof. intros Hall a [_ Ha]%list_elem_of_filter. by apply Hall. Qed.

(** The averages of a report are within the rounded bounds of the scores. *)
Lemma report_averages_bounds self articles w (lo hi : Q) :
  (∀ a, a ∈ articles →
        (lo <= sentiment_score a)%Q ∧ (sentiment_score a <= hi)%Q) →
  let r := report_in self articles w in
  (∀ market e,
     report_markets r !! market = Some e →
     (py_round lo 2 <= average_sentiment e)%Q ∧
     (average_sentiment e <= py_round hi 2)%Q) ∧
  (∀ location e,
     report_locations r !! location = Some e →
     (py_round lo 2 <= average_sentiment e)%Q ∧
     (average_sentiment e <= py_round hi 2)%Q) ∧
  (∀ k c,
     market_location_matrix r !! k = Some c →
     (py_round lo 2 <= cell_average_sentiment c)%Q ∧
     (cell_average_sentiment c <= py_round hi 2)%Q).
Proof.
  intros Hall r. subst r.
  assert (∀ xs, xs ≠ [] →
            (∀ a, a ∈ xs → (lo <= sentiment_score a)%Q ∧
                           (sentiment_score a <= hi)%Q) →
            (py_round lo 2 <= py_round (avg_sentiment xs) 2)%Q ∧
            (py_round (avg_sentiment xs) 2 <= py_round hi 2)%Q) as Hround.
  { intros xs Hne Hxs.
    destruct (avg_sentiment_bounds xs lo hi Hne Hxs).
    split; by apply py_round_mono. }
  split; [|split].
  - intros market e. rewrite report_markets_lookup.
    case_decide; [|done]. intros [Hne ->]%stats_of_Some. simpl.
    apply Hround; [done|]. by apply filter_subset_bounds.
  - intros location e. rewrite report_locations_lookup.
    case_decide; [|done]. intros [Hne ->]%stats_of_Some. simpl.
    apply Hround; [done|]. by apply filter_subset_bounds.
  - intros k c (m & l & _ & _ & _ & [Hne ->]%cell_of_Some)%report_matrix_Some.
    simpl. apply Hround; [done|]. by apply filter_subset_bounds.
Qed.

Lemma trend_cases (mean : Q) :
  (trend mean = lit "positive" ∧ (60 < mean)%Q) ∨
  (trend mean = lit "negative" ∧ (mean < 40)%Q) ∨
  (trend mean = lit "neutral" ∧ (40 <= mean)%Q ∧ (mean <= 60)%Q).
Proof.
  unfold trend.
  destruct (Qlt_bool 60 mean) eqn:Hhi;
    [left; split; [done | by apply Qlt_bool_iff]|].
  apply not_true_iff_false in Hhi. rewrite Qlt_bool_iff in Hhi.
  apply Qnot_lt_le in Hhi.
  destruct (Qlt_bool mean 40) eqn:Hlo;
    [right; left; split; [done | by apply Qlt_bool_iff]|].
  apply not_true_iff_false in Hlo. rewrite Qlt_bool_iff in Hlo.
  apply Qnot_lt_le in Hlo. right. right. done.
Qed.

(** The stored trend and the stored average of one record. *)
Lemma trend_with_rounded (mean : Q) :
  (trend mean = lit "positive" → (60 <= py_round mean 2)%Q) ∧
  (trend mean = lit "negative" → (py_round mean 2 <= 40)%Q) ∧
  (trend mean = lit "neutral" →
   (40 <= py_round mean 2)%Q ∧ (py_round mean 2 <= 60)%Q) ∧
  (trend mean = lit "positive" ∨ trend mean = lit "negative" ∨
   trend mean = lit "neutral").
Proof.
  assert (∀ x, (60 <= x)%Q → (60 <= py_round x 2)%Q) as H60.
  { intros x Hx. change 60%Q with (py_round 60 2).
    by apply py_round_mono. }
  assert (∀ x, (x <= 60)%Q → (py_round x 2 <= 60)%Q) as H60'.
  { intros x Hx. change 60%Q with (py_round 60 2).
    by apply py_round_mono. }
  assert (∀ x, (40 <= x)%Q → (40 <= py_round x 2)%Q) as H40.
  { intros x Hx. change 40%Q with (py_round 40 2).
    by apply py_round_mono. }
  assert (∀ x, (x <= 40)%Q → (py_round x 2 <= 40)%Q) as H40'.
  { intros x Hx. change 40%Q with (py_round 40 2).
    by apply py_round_mono. }
  destruct (trend_cases mean) as [[-> H]|[[-> H]|[-> [Hlo Hhi]]]].
  - split; [intros _; apply H60; lra|]. split; [discriminate|].
    split; [discriminate | by left].
  - split; [discriminate|]. split; [intros _; apply H40'; lra|].
    split; [discriminate | right; by left].
  - split; [discriminate|]. split; [discriminate|].
    split; [intros _; split; [by apply H40 | by apply H60'] | right; by right].
Qed.

(** X3. In every record of the report the trend is one of the three labels
    and agrees with the stored average up to the rounding: a positive
    trend comes with an average of at least 60, a negative trend with an
    average of at most 40, and a neutral trend with an average between 40
    and 60. *)
Theorem trend_agrees_with_average self articles w :
  let r := report_in self articles w in
  (∀ market e,
     report_markets r !! market = Some e →
     (sentiment_trend e = lit "positive" → (60 <= average_sentiment e)%Q) ∧
     (sentiment_trend e = lit "negative" → (average_sentiment e <= 40)%Q) ∧
     (sentiment_trend e = lit "neutral" →
      (40 <= average_sentiment e)%Q ∧ (average_sentiment e <= 60)%Q) ∧
     (sentiment_trend e = lit "positive" ∨
      sentiment_trend e = lit "negative" ∨
      sentiment_trend e = lit "neutral")) ∧
  (∀ location e,
     report_locations r !! location = Some e →
     (sentiment_trend e = lit "positive" → (60 <= average_sentiment e)%Q) ∧
     (sentiment_trend e = lit "negative" → (average_sentiment e <= 40)%Q) ∧
     (sentiment_trend e = lit "neutral" →
      (40 <= average_sentiment e)%Q ∧ (average_sentiment e <= 60)%Q) ∧
     (sentiment_trend e = lit "positive" ∨
      sentiment_trend e = lit "negative" ∨
      sentiment_trend e = lit "neutral")) ∧
  (∀ k c,
     market_location_matrix r !! k = Some c →
     (cell_sentiment_trend c = lit "positive" →
      (60 <= cell_average_sentiment c)%Q) ∧
     (cell_sentiment_trend c = lit "negative" →
      (cell_average_sentiment c <= 40)%Q) ∧
     (cell_sentiment_trend c = lit "neutral" →
      (40 <= cell_average_sentiment c)%Q ∧
      (cell_average_sentiment c <= 60)%Q) ∧
     (cell_sentiment_trend c = lit "positive" ∨
      cell_sentiment_trend c = lit "negative" ∨
      cell_sentiment_trend c = lit "neutral")).
Proof.
  intros r. subst r. split; [|split].
  - intros market e. rewrite report_markets_lookup.
    case_decide; [|done]. intros [_ ->]%stats_of_Some. simpl.
    apply trend_with_rounded.
  - intros location e. rewrite report_locations_lookup.
    case_decide; [|done]. intros [_ ->]%stats_of_Some. simpl.
    apply trend_with_rounded.
  - intros k c (m & l & _ & _ & _ & [_ ->]%cell_of_Some)%report_matrix_Some.
    simpl. apply trend_with_rounded.
Qed.

End ReportBounds.

Section ReportCounts.

Variables W datetime : Type.
Variable now : W -> datetime * W.
Variable isoformat : datetime -> str.

Implicit Types (articles xs : list (NewsArticle datetime)).
Implicit Types (a : NewsArticle datetime).
Implicit Types (self : MarketAreaCrawler) (w : W).

Abbreviation report_for := (report_of W datetime now isoformat).

Lemma length_filter_impl (P Q : NewsArticle datetime → Prop)
    `{∀ a, Decision (P a)} `{∀ a, Decision (Q a)} articles :
  (∀ a, P a → Q a) →
  length (filter P articles) ≤ length (filter Q articles).
Proof.
  intros Himpl. induction articles as [|a articles IH]; [done|].
  rewrite !filter_cons.
  destruct (decide (P a)) as [HP|HP].
  - rewrite decide_True by by apply Himpl. simpl. lia.
  - destruct (decide (Q a)); simpl; lia.
Qed.

(** X4. The counts of a report are consistent: no count exceeds the total
    number of articles, and a record of the matrix comes with the record of
    its market and the record of its location, each with a count at least
    as large. *)
Theorem counts_consistent self articles w :
  let r := report_of W datetime now isoformat self articles w in
  total_articles r = length articles ∧
  (∀ market e,
     report_markets r !! market = Some e →
     article_count e ≤ total_articles r) ∧
  (∀ location e,
     report_locations r !! location = Some e →
     article_count e ≤ total_articles r) ∧
  (∀ k c,
     market_location_matrix r !! k = Some c →
     ∃ em el,
       report_markets r !! cell_market c = Some em ∧
       report_locations r !! cell_location c = Some el ∧
       cell_article_count c ≤ article_count em ∧
       cell_article_count c ≤ article_count el ∧
       cell_article_count c ≤ total_articles r).
Proof.
  intros r. subst r.
  destruct (report_of_fields W datetime now isoformat self articles w)
    as (Htotal & _).
  split; [done|]. rewrite Htotal. split; [|split].
  - intros market e. rewrite report_markets_lookup.
    case_decide; [|done]. intros [_ ->]%stats_of_Some. simpl.
    apply length_filter.
  - intros location e. rewrite report_locations_lookup.
    case_decide; [|done]. intros [_ ->]%stats_of_Some. simpl.
    apply length_filter.
  - intros k c
      (m & l & Hm & Hl & _ & [Hne ->]%cell_of_Some)%report_matrix_Some.
    simpl.
    assert (length (relevant_articles m l articles)
            ≤ length (market_articles m articles)) as Hrow
      by (apply length_filter_impl; by intros a [? _]).
    assert (length (relevant_articles m l articles)
            ≤ length (location_articles l articles)) as Hcol
      by (apply length_filter_impl; by intros a [_ ?]).
    assert (0 < length (relevant_articles m l articles)) as Hpos
      by (destruct (relevant_articles m l articles); [done | simpl; lia]).
    rewrite report_markets_lookup, report_locations_lookup.
    rewrite !decide_True by done.
    destruct (market_articles m articles) as [|a1 xs1] eqn:Hm1;
      [simpl in Hrow; lia|].
    destruct (location_articles l articles) as [|a2 xs2] eqn:Hl1;
      [simpl in Hcol; lia|].
    eexists _, _. split; [done|]. split; [done|]. simpl.
    split; [done|]. split; [done|]. apply length_filter.
Qed.

(** X5. When no article carries a tracked market, the markets mapping and
    the matrix of the report are empty; when no article carries a tracked
    location, the locations mapping and the matrix are empty; the report of
    no article at all has total 0 and three empty mappings. *)
Theorem nothing_to_report self w :
  (∀ articles,
     (∀ a market, a ∈ articles → market ∈ self_market_areas self →
                  market ∉ market_areas a) →
     report_markets (report_of W datetime now isoformat self articles w)
     = ∅ ∧
     market_location_matrix
       (report_of W datetime now isoformat self articles w) = ∅) ∧
  (∀ articles,
     (∀ a location, a ∈ articles → location ∈ self_locations self →
                    location ∉ locations a) →
     report_locations (report_of W datetime now isoformat self articles w)
     = ∅ ∧
     market_location_matrix
       (report_of W datetime now isoformat self articles w) = ∅) ∧
  (total_articles (report_of W datetime now isoformat self [] w) = 0 ∧
   report_markets (report_of W datetime now isoformat self [] w) = ∅ ∧
   report_locations (report_of W datetime now isoformat self [] w) = ∅ ∧
   market_location_matrix (report_of W datetime now isoformat self [] w)
   = ∅).
Proof.
  assert (∀ xs : list (NewsArticle datetime),
            (∀ a, a ∉ xs) → xs = []) as Hnil.
  { intros [|a xs] H; [done|]. destruct (H a). left. }
  assert (∀ articles,
            (∀ a market, a ∈ articles → market ∈ self_market_areas self →
                         market ∉ market_areas a) →
            report_markets (report_for self articles w) = ∅ ∧
            market_location_matrix (report_for self articles w) = ∅)
    as Hmarkets.
  { intros articles Hnone. split; apply map_empty.
    - intros market. rewrite report_markets_lookup.
      case_decide as Hm; [|done]. apply stats_of_None, Hnil.
      intros a [Ha Hin]%elem_of_market_articles.
      by apply (Hnone a market).
    - intros k.
      destruct (market_location_matrix (report_for self articles w) !! k)
        as [c|] eqn:Hc; [|done].
      apply report_matrix_Some
        in Hc as (m & l & Hm & _ & _ & [Hne _]%cell_of_Some).
      destruct Hne. apply Hnil.
      intros a (Ha & Hin & _)%elem_of_relevant_articles.
      by apply (Hnone a m). }
  assert (∀ articles,
            (∀ a location, a ∈ articles → location ∈ self_locations self →
                           location ∉ locations a) →
            report_locations (report_for self articles w) = ∅ ∧
            market_location_matrix (report_for self articles w) = ∅)
    as Hlocations.
  { intros articles Hnone. split; apply map_empty.
    - intros location. rewrite report_locations_lookup.
      case_decide as Hl; [|done]. apply stats_of_None, Hnil.
      intros a [Ha Hin]%elem_of_location_articles.
      by apply (Hnone a location).
    - intros k.
      destruct (market_location_matrix (report_for self articles w) !! k)
        as [c|] eqn:Hc; [|done].
      apply report_matrix_Some
        in Hc as (m & l & _ & Hl & _ & [Hne _]%cell_of_Some).
      destruct Hne. apply Hnil.
      intros a (Ha & _ & Hin)%elem_of_relevant_articles.
      by apply (Hnone a l). }
  split; [done|]. split; [done|].
  destruct (Hmarkets []) as [Hm Hx];
    [by intros a market Ha%elem_of_nil|].
  destruct (Hlocations []) as [Hl _];
    [by intros a location Ha%elem_of_nil|].
  split; [|done].
  by destruct (report_of_fields W datetime now isoformat self [] w)
    as (-> & _).
Qed.

End ReportCounts.

(** ** Order and size of the tagger's result *)

Lemma scan_keywords_sublist items tracked text_lower :
  scan_keywords items tracked text_lower `sublist_of` keys items.
Proof.
  induction items as [|[category keywords] items IH]; simpl; [done|].
  case_bool_decide; [|by apply sublist_cons].
  destruct (any_keyword_in keywords text_lower);
    [by apply sublist_skip | by apply sublist_cons].
Qed.

Lemma scan_keywords_tracked_mono items tracked tracked' text_lower :
  tracked ⊆ tracked' →
  scan_keywords items tracked text_lower
    `sublist_of` scan_keywords items tracked' text_lower.
Proof.
  intros Hsub.
  induction items as [|[category keywords] items IH]; simpl; [done|].
  destruct (decide (category ∈ tracked)) as [Ht|Ht].
  - rewrite !bool_decide_eq_true_2 by (done || by apply Hsub).
    destruct (any_keyword_in keywords text_lower);
      [by apply sublist_skip | done].
  - rewrite (bool_decide_eq_false_2 (category ∈ tracked)) by done.
    destruct (decide (category ∈ tracked')) as [Ht'|Ht'].
    + rewrite bool_decide_eq_true_2 by done.
      destruct (any_keyword_in keywords text_lower);
        [by apply sublist_cons | done].
    + by rewrite bool_decide_eq_false_2 by done.
Qed.

(** X6. The tagger returns the categories in the order of the keyword
    dictionary, each at most once when the keys of the dictionary are
    distinct; a crawler that tracks more categories finds at least the
    same ones; and a crawler built by [__init__] finds at most 5 markets
    and 6 locations, whatever it is asked to track. *)
Theorem tagger_order_and_size (lower : str -> str) (text : str) :
  (∀ self,
     find_market_areas lower self text `sublist_of`
       keys (market_keywords self) ∧
     find_locations lower self text `sublist_of`
       keys (location_keywords self) ∧
     (NoDup (keys (market_keywords self)) →
      NoDup (find_market_areas lower self text)) ∧
     (NoDup (keys (location_keywords self)) →
      NoDup (find_locations lower self text))) ∧
  (∀ self self',
     market_keywords self = market_keywords self' →
     self_market_areas self ⊆ self_market_areas self' →
     find_market_areas lower self text `sublist_of`
       find_market_areas lower self' text) ∧
  (∀ self self',
     location_keywords self = location_keywords self' →
     self_locations self ⊆ self_locations self' →
     find_locations lower self text `sublist_of`
       find_locations lower self' text) ∧
  (∀ market_areas_arg locations_arg,
     let self := init lower market_areas_arg locations_arg in
     NoDup (find_market_areas lower self text) ∧
     length (find_market_areas lower self text) ≤ 5 ∧
     NoDup (find_locations lower self text) ∧
     length (find_locations lower self text) ≤ 6).
Proof.
  split; [|split; [|split]].
  - intros self. unfold find_market_areas, find_locations.
    split; [apply scan_keywords_sublist|].
    split; [apply scan_keywords_sublist|].
    split; intros Hnd; eapply sublist_NoDup;
      [exact Hnd | apply scan_keywords_sublist
      | exact Hnd | apply scan_keywords_sublist].
  - intros self self' Hkw Hsub. unfold find_market_areas. rewrite Hkw.
    by apply scan_keywords_tracked_mono.
  - intros self self' Hkw Hsub. unfold find_locations. rewrite Hkw.
    by apply scan_keywords_tracked_mono.
  - intros market_areas_arg locations_arg self.
    unfold find_market_areas, find_locations, self.
    cbn [init market_keywords location_keywords].
    split; [|split; [|split]].
    + eapply sublist_NoDup; [|apply scan_keywords_sublist].
      by_computation.
    + etrans; [apply sublist_length, scan_keywords_sublist|].
      vm_compute. lia.
    + eapply sublist_NoDup; [|apply scan_keywords_sublist].
      by_computation.
    + etrans; [apply sublist_length, scan_keywords_sublist|].
      vm_compute. lia.
Qed.

(** ** Sites and crawls *)

Section WebsiteFacts.

Variable lower : str -> str.
Variables W datetime : Type.
Variable now : W -> datetime * W.
Variable fetch_page : str -> W -> option str * W.
Variable extract_text_from_html : str -> str.
Variable extract_articles_from_page : str -> str -> list ArticleData.
Variable analyze_sentiment : str -> Q.

Abbreviation classify_with :=
  (classify lower W datetime now analyze_sentiment).
Abbreviation analyze_candidate_with :=
  (analyze_candidate lower W datetime now fetch_page extract_text_from_html
     analyze_sentiment).
Abbreviation analyze_website_with :=
  (analyze_website lower W datetime now fetch_page extract_text_from_html
     extract_articles_from_page analyze_sentiment).
Abbreviation crawl_with :=
  (crawl lower W datetime now fetch_page extract_text_from_html
     extract_articles_from_page analyze_sentiment).

(** The title and the address that identify an article and a candidate. *)
Abbreviation article_id :=
  (fun a : NewsArticle datetime => (title a, url a)).
Abbreviation candidate_id :=
  (fun d : ArticleData => (data_title d, data_url d)).

Lemma analyze_candidate_step self analyzed w article_data :
  ∃ w',
    analyze_candidate_with self (analyzed, w) article_data = (analyzed, w') ∨
    ∃ a, analyze_candidate_with self (analyzed, w) article_data
         = (analyzed ++ [a], w') ∧
         article_id a = candidate_id article_data.
Proof.
  unfold analyze_candidate.
  destruct (candidate_content W fetch_page extract_text_from_html
              article_data w) as [text w1].
  destruct (classify_with self article_data text w1) as [[a|] w2] eqn:Hc.
  - exists w2. right. exists a. split; [done|].
    destruct (classify_Some _ _ _ _ _ _ _ _ _ _ _ Hc)
      as (_ & _ & _ & -> & -> & _). done.
  - exists w2. by left.
Qed.

Lemma analyze_loop_sublist self articles_data analyzed w :
  ∃ extra,
    (foldl (analyze_candidate_with self) (analyzed, w) articles_data).1
    = analyzed ++ extra ∧
    article_id <$> extra `sublist_of` candidate_id <$> articles_data.
Proof.
  revert analyzed w.
  induction articles_data as [|d ds IH]; intros analyzed w.
  - exists []. split; [by rewrite app_nil_r | done].
  - cbn [foldl]. rewrite fmap_cons.
    destruct (analyze_candidate_step self analyzed w d)
      as (w' & [-> | (a & -> & Hid)]).
    + destruct (IH analyzed w') as (extra & -> & Hsub).
      exists extra. split; [done | by apply sublist_cons].
    + destruct (IH (analyzed ++ [a]) w') as (extra & -> & Hsub).
      exists (a :: extra). split; [by rewrite <- app_assoc|].
      rewrite fmap_cons, Hid. by apply sublist_skip.
Qed.

(** X7. A site whose page cannot be fetched, or is empty, gives no
    article. Otherwise the articles of a site are drawn from the candidates
    of its page: their titles and addresses are those of candidates, in the
    order of the candidates and each candidate used at most once, so there
    are at most as many articles as candidates. *)
Theorem articles_from_candidates self site w :
  (truthy (fetch_page site w).1 = false →
   analyze_website_with self site w = ([], (fetch_page site w).2)) ∧
  (∀ html,
     (fetch_page site w).1 = Some html →
     article_id <$> (analyze_website_with self site w).1
       `sublist_of` candidate_id <$> extract_articles_from_page html site ∧
     length (analyze_website_with self site w).1
     ≤ length (extract_articles_from_page html site)).
Proof.
  unfold analyze_website. destruct (fetch_page site w) as [o w1]. simpl.
  split; [by intros ->|].
  intros html ->.
  assert (article_id <$>
            (if truthy (Some html)
             then foldl (analyze_candidate_with self) ([], w1)
                    (extract_articles_from_page html site)
             else ([], w1)).1
          `sublist_of` candidate_id <$> extract_articles_from_page html site)
    as Hsub.
  { destruct (truthy (Some html)); [|apply sublist_nil_l].
    destruct (analyze_loop_sublist self
                (extract_articles_from_page html site) [] w1)
      as (extra & -> & Hsub). done. }
  split; [done|].
  apply sublist_length in Hsub. by rewrite !length_fmap in Hsub.
Qed.

Lemma crawl_loop_acc self websites acc w :
  foldl (fun '(all_articles, w) website =>
           let '(articles, w) := analyze_website_with self website w in
           (all_articles ++ articles, w)) (acc, w) websites
  = (acc ++ (crawl_with self websites w).1, (crawl_with self websites w).2).
Proof.
  unfold crawl. revert acc w.
  induction websites as [|site sites IH]; intros acc w.
  - simpl. by rewrite app_nil_r.
  - cbn [foldl].
    destruct (analyze_website_with self site w) as [articles w1].
    rewrite (IH (acc ++ articles)), (IH ([] ++ articles)). simpl.
    by rewrite app_assoc.
Qed.

(** X8. A crawl is the concatenation of its sites, each analysed in the
    world the previous one left: the crawl of no site gives no article; the
    crawl of a list of sites is the articles of the first site followed by
    the crawl of the others; crawling two lists in a row is crawling their
    concatenation; and a site whose page cannot be fetched adds nothing and
    does not stop the crawl of the others. *)
Theorem crawl_composes self w :
  crawl_with self [] w = ([], w) ∧
  (∀ site sites,
     crawl_with self (site :: sites) w =
     let r := analyze_website_with self site w in
     let r' := crawl_with self sites r.2 in
     (r.1 ++ r'.1, r'.2)) ∧
  (∀ sites sites',
     crawl_with self (sites ++ sites') w =
     let r := crawl_with self sites w in
     let r' := crawl_with self sites' r.2 in
     (r.1 ++ r'.1, r'.2)) ∧
  (∀ site sites,
     truthy (fetch_page site w).1 = false →
     crawl_with self (site :: sites) w
     = crawl_with self sites (fetch_page site w).2).
Proof.
  assert (∀ site sites w0,
            crawl_with self (site :: sites) w0 =
            ((analyze_website_with self site w0).1
               ++ (crawl_with self sites (analyze_website_with self site w0).2).1,
             (crawl_with self sites (analyze_website_with self site w0).2).2))
    as Hcons.
  { intros site sites w0. unfold crawl at 1. cbn [foldl].
    destruct (analyze_website_with self site w0) as [articles w1].
    by rewrite crawl_loop_acc. }
  split; [done|]. split; [intros site sites; apply Hcons|]. split.
  - intros sites sites'. cbn zeta. revert w.
    induction sites as [|site sites IH]; intros w.
    + simpl. by destruct (crawl_with self sites' w).
    + rewrite <- app_comm_cons, !Hcons, IH. simpl. by rewrite app_assoc.
  - intros site sites Hfail. rewrite Hcons.
    assert (analyze_website_with self site w = ([], (fetch_page site w).2))
      as ->.
    { unfold analyze_website. destruct (fetch_page site w) as [o w1].
      simpl in *. by rewrite Hfail. }
    simpl. by destruct (crawl_with self sites (fetch_page site w).2).
Qed.

End WebsiteFacts.

(** ** Candidates of a page *)

Section Candidates.

Variable select : str -> str -> list Element.
Variable strip : str -> str.
Variable urljoin : str -> str -> str.

Abbreviation candidate_at := (candidate_of strip urljoin).
Abbreviation extract_with := (extract_articles_from_page select strip urljoin).

(** What the dictionary appended for an element holds. *)
Lemma candidate_of_Some base_url element d :
  candidate_at base_url element = Some d →
  ∃ link,
    link ≠ [] ∧ data_title d ≠ [] ∧
    data_url d = urljoin base_url link ∧
    data_content d = take 500 (strip (elem_text element)) ∧
    (elem_name element = lit "a" ∧ elem_href element = Some link ∧
     data_title d = strip (elem_text element)
     ∨ elem_name element ≠ lit "a" ∧
       ∃ t, elem_find element = Some t ∧ title_name t = lit "a" ∧
            title_href t = Some link ∧ data_title d = strip (title_text t)).
Proof.
  unfold candidate_of, title_and_link.
  destruct (decide (elem_name element = lit "a")) as [Ha|Ha].
  - rewrite bool_decide_eq_true_2 by done.
    destruct (strip (elem_text element)) as [|t title'] eqn:Ht; [done|].
    destruct (elem_href element) as [[|c link']|] eqn:Hl; [done| |done].
    intros [= <-]. exists (c :: link'). simpl.
    split; [done|]. split; [done|]. split; [done|].
    split; [done|]. by left.
  - rewrite bool_decide_eq_false_2 by done.
    destruct (elem_find element) as [te|] eqn:Hf; [|done].
    destruct (strip (title_text te)) as [|t title'] eqn:Ht; [done|].
    destruct (decide (title_name te = lit "a")) as [Hta|Hta].
    + rewrite bool_decide_eq_true_2 by done.
      destruct (title_href te) as [[|c link']|] eqn:Hl; [done| |done].
      intros [= <-]. exists (c :: link'). simpl.
      split; [done|]. split; [done|]. split; [done|]. split; [done|].
      right. split; [done|]. exists te. by rewrite Ht.
    + by rewrite bool_decide_eq_false_2 by done.
Qed.

Lemma elements_loop_elem base_url elements acc (d : ArticleData) :
  d ∈ foldl (fun articles element =>
               match candidate_at base_url element with
               | Some article => articles ++ [article]
               | None => articles
               end) acc elements →
  d ∈ acc ∨ ∃ element, element ∈ elements ∧
                       candidate_at base_url element = Some d.
Proof.
  revert acc. induction elements as [|e es IH]; intros acc; simpl;
    [by left|].
  intros [Hin|(e' & He' & Hc)]%IH.
  - destruct (candidate_at base_url e) as [article|] eqn:Hc; [|by left].
    apply elem_of_app in Hin as [Hin|Hin%list_elem_of_singleton];
      [by left|].
    subst. right. exists e. split; [left | done].
  - right. exists e'. split; [by right | done].
Qed.

Lemma selectors_loop_elem html base_url selectors acc (d : ArticleData) :
  d ∈ foldl (fun articles selector =>
               foldl (fun articles element =>
                        match candidate_at base_url element with
                        | Some article => articles ++ [article]
                        | None => articles
                        end) articles (select html selector))
        acc selectors →
  d ∈ acc ∨ ∃ selector element,
              selector ∈ selectors ∧ element ∈ select html selector ∧
              candidate_at base_url element = Some d.
Proof.
  revert acc. induction selectors as [|s ss IH]; intros acc; simpl;
    [by left|].
  intros [Hin|(s' & e & Hs' & He & Hc)]%IH.
  - apply elements_loop_elem in Hin as [Hin|(e & He & Hc)]; [by left|].
    right. exists s, e. split; [left | done].
  - right. exists s', e. split; [by right | done].
Qed.

(** X9. A page has at most 20 candidates. Each has a non-empty title and a
    preview of at most 500 characters, and comes from an element selected
    by one of the seven selectors that is a link with a non-empty address,
    or whose first heading or link inside is such a link: an element whose
    first heading is not a link gives no candidate. A page on which the
    selectors select nothing has no candidate. *)
Theorem candidates_of_page (html base_url : str) :
  let articles_data := extract_with html base_url in
  length articles_data ≤ 20 ∧
  (∀ d,
     d ∈ articles_data →
     data_title d ≠ [] ∧ length (data_content d) ≤ 500 ∧
     ∃ selector element link,
       selector ∈ article_selectors ∧ element ∈ select html selector ∧
       link ≠ [] ∧ data_url d = urljoin base_url link ∧
       data_content d = take 500 (strip (elem_text element)) ∧
       (elem_name element = lit "a" ∧ elem_href element = Some link ∧
        data_title d = strip (elem_text element)
        ∨ elem_name element ≠ lit "a" ∧
          ∃ t, elem_find element = Some t ∧ title_name t = lit "a" ∧
               title_href t = Some link ∧
               data_title d = strip (title_text t))) ∧
  ((∀ selector, selector ∈ article_selectors → select html selector = []) →
   articles_data = []).
Proof.
  intros articles_data. subst articles_data.
  unfold extract_articles_from_page.
  assert (∀ d,
            d ∈ take 20
                  (foldl (fun articles selector =>
                            foldl (fun articles element =>
                                     match candidate_at base_url element with
                                     | Some article => articles ++ [article]
                                     | None => articles
                                     end) articles (select html selector))
                         [] article_selectors) →
            ∃ selector element,
              selector ∈ article_selectors ∧ element ∈ select html selector ∧
              candidate_at base_url element = Some d) as Helem.
  { intros d Hin.
    pose proof (elem_of_sublist _ _ _ Hin (sublist_take _ 20)) as Hin'.
    apply selectors_loop_elem in Hin' as [Hnil|H]; [|done].
    by apply elem_of_nil in Hnil. }
  split; [|split].
  - rewrite length_take. lia.
  - intros d (selector & element & Hs & He & Hc)%Helem.
    destruct (candidate_of_Some _ _ _ Hc)
      as (link & Hlink & Htitle & Hurl & Hcontent & Hcases).
    split; [done|]. split; [rewrite Hcontent, length_take; lia|].
    by exists selector, element, link.
  - intros Hnone.
    assert (∀ xs : list ArticleData, (∀ d, d ∉ xs) → xs = []) as Hnil.
    { intros [|d xs] H; [done|]. destruct (H d). left. }
    apply Hnil. intros d (selector & element & Hs & He & _)%Helem.
    rewrite (Hnone selector Hs) in He. by apply elem_of_nil in He.
Qed.

End Candidates.

(** ** Fetching a page *)

(** X10. [fetch_page] gives a page only for a response with status 200:
    the text of the response, or, when the text cannot be decoded, the
    bytes of the body read as latin-1, one character below 256 for each
    byte. A request that raises, another status, or another failure while
    reading gives [None]. The call changes the world as the request
    alone. *)
Theorem fetch_page_outcome {W : Type}
    (session_get : str -> W -> option Response * W) (url : str) (w : W) :
  (fetch_page session_get url w).2 = (session_get url w).2 ∧
  (∀ page,
     (fetch_page session_get url w).1 = Some page →
     ∃ response,
       (session_get url w).1 = Some response ∧ status response = 200 ∧
       (response_text response = TextOk page
        ∨ response_text response = TextUnicodeDecodeError ∧
          ∃ content,
            response_read response = Some content ∧
            page = decode_latin1 content ∧
            length page = length content ∧
            ∀ c, c ∈ page → (c < 256)%N)) ∧
  ((session_get url w).1 = None → (fetch_page session_get url w).1 = None) ∧
  (∀ response,
     (session_get url w).1 = Some response → status response ≠ 200 →
     (fetch_page session_get url w).1 = None) ∧
  (∀ response text,
     (session_get url w).1 = Some response → status response = 200 →
     response_text response = TextOk text →
     (fetch_page session_get url w).1 = Some text).
Proof.
  unfold fetch_page.
  destruct (session_get url w) as [[response|] w1]; simpl.
  2: { split; [done|]. split; [done|]. split; [done|].
       split; intros; simplify_eq. }
  destruct (Nat.eqb_spec (status response) 200) as [Hs|Hs];
    [destruct (response_text response) as [text| |] eqn:Ht;
       [|destruct (response_read response) as [content|] eqn:Hr|]|];
    simpl.
  all: split; [done|].
  all: split;
    [|split; [done|]; split; intros; simplify_eq; congruence].
  - intros page [= <-]. exists response. split; [done|].
    split; [done|]. by left.
  - intros page [= <-]. exists response. split; [done|].
    split; [done|]. right. split; [done|]. exists content.
    split; [done|]. split; [done|].
    split; [unfold decode_latin1; by rewrite length_map|].
    intros c Hc. unfold decode_latin1 in Hc.
    apply list_elem_of_In, in_map_iff in Hc as (b & <- & _).
    by destruct b.
  - done.
  - done.
  - done.
Qed.

(** ** The report of a crawl *)

Lemma matrix_key_split (m m' l l' : str) :
  95%N ∉ m → 95%N ∉ l →
  matrix_key m' l' = matrix_key m l → m' = m ∧ l' = l.
Proof.
  unfold matrix_key. change (lit "_") with [95%N].
  intros Hm Hl. revert m' Hm.
  induction m as [|c m IH]; intros [|c' m'] Hm H; simpl in H.
  - by injection H.
  - injection H as -> H. exfalso. apply Hl. rewrite <- H.
    apply elem_of_app. right. left.
  - injection H as <- _. exfalso. apply Hm. left.
  - injection H as -> H.
    destruct (IH m') as [-> ->]; [|done..].
    intros ?. apply Hm. by right.
Qed.

(** A pair of names without underscore has an unambiguous key, whatever
    else is tracked. *)
Lemma key_unambiguous_plain self (market location : str) :
  95%N ∉ market → 95%N ∉ location →
  key_unambiguous self market location.
Proof.
  intros Hm Hl m' l' _ _ Heq. by apply (matrix_key_split market m' location l').
Qed.

Lemma init_keys_plain :
  Forall (fun k : str => 95%N ∉ k) (keys init_market_keywords) ∧
  Forall (fun k : str => 95%N ∉ k) (keys init_location_keywords).
Proof. split; by_computation. Qed.

Section CrawlReports.

Variable lower : str -> str.
Variables W datetime : Type.
Variable now : W -> datetime * W.
Variable isoformat : datetime -> str.
Variable fetch_page : str -> W -> option str * W.
Variable extract_text_from_html : str -> str.
Variable extract_articles_from_page : str -> str -> list ArticleData.
Variable analyze_sentiment : str -> Q.

Abbreviation crawl_of :=
  (crawl lower W datetime now fetch_page extract_text_from_html
     extract_articles_from_page analyze_sentiment).
Abbreviation report_on := (report_of W datetime now isoformat).
Abbreviation run_analysis_of :=
  (run_analysis lower W datetime now isoformat fetch_page
     extract_text_from_html extract_articles_from_page analyze_sentiment).

(** An article of a crawl has a market and a location, all of them tracked
    keys of the dictionaries. *)
Lemma crawl_article_tagged self websites w (a : NewsArticle datetime) :
  a ∈ (crawl_of self websites w).1 →
  (∃ m, m ∈ market_areas a) ∧ (∃ l, l ∈ locations a) ∧
  (∀ m, m ∈ market_areas a →
        m ∈ self_market_areas self ∧ m ∈ keys (market_keywords self)) ∧
  (∀ l, l ∈ locations a →
        l ∈ self_locations self ∧ l ∈ keys (location_keywords self)).
Proof.
  intros Hin.
  destruct (crawl_tags _ _ _ _ _ _ _ _ _ _ _ _ Hin) as [Hm Hl].
  apply crawl_elem in Hin as (ad & text & w0 & w1 & Hc).
  assert (is_Some (classify lower W datetime now analyze_sentiment
                     self ad text w0).1) as Hs by (rewrite Hc; by eexists).
  apply classify_is_Some in Hs as [Hms Hls].
  destruct (classify_Some _ _ _ _ _ _ _ _ _ _ _ Hc) as (Hma & Hla & _).
  rewrite <- Hma in Hms. rewrite <- Hla in Hls.
  split; [|split; [|done]].
  - destruct (market_areas a) as [|m ms]; [done|]. exists m. left.
  - destruct (locations a) as [|l ls]; [done|]. exists l. left.
Qed.

Lemma init_pair_unambiguous market_areas_arg locations_arg (m l : str) :
  m ∈ keys init_market_keywords → l ∈ keys init_location_keywords →
  key_unambiguous (init lower market_areas_arg locations_arg) m l.
Proof.
  intros Hm Hl. destruct init_keys_plain as [Hpm Hpl].
  rewrite Forall_forall in Hpm, Hpl.
  apply key_unambiguous_plain; [by apply Hpm | by apply Hpl].
Qed.

(** The record of a pair that an article of the crawl carries. *)
Lemma crawl_pair_cell market_areas_arg locations_arg websites w w'
    (a : NewsArticle datetime) (market location : str) :
  let self := init lower market_areas_arg locations_arg in
  let articles := (crawl_of self websites w).1 in
  a ∈ articles → market ∈ market_areas a → location ∈ locations a →
  ∃ c, market_location_matrix (report_on self articles w')
         !! matrix_key market location = Some c ∧
       cell_market c = market ∧ cell_location c = location ∧
       cell_article_count c
       = length (relevant_articles market location articles).
Proof.
  intros self articles Ha Hm Hl.
  destruct (crawl_article_tagged self websites w a Ha)
    as (_ & _ & Htm & Htl).
  destruct (Htm market Hm) as [Hmt Hmk].
  destruct (Htl location Hl) as [Hlt Hlk].
  rewrite report_matrix_unambiguous;
    [|done|done|by apply init_pair_unambiguous].
  destruct (cell_of market location
              (relevant_articles market location articles))
    as [c|] eqn:Hc.
  - apply cell_of_Some in Hc as [_ ->]. eexists. split; [done|]. simpl.
    by do 2 (split; [done|]).
  - apply cell_of_None in Hc.
    assert (a ∈ relevant_articles market location articles) as Hin
      by by apply elem_of_relevant_articles.
    rewrite Hc in Hin. by apply elem_of_nil in Hin.
Qed.

(** X11. In the report of a crawl by a crawler built by [__init__],
    whatever it tracks, a pair of a market and a location that some article
    carries has its record in the matrix, under its composite key, with the
    number of its articles as count; and every record of a market, or of a
    location, comes with a record of the matrix in its row, or column. *)
Theorem crawl_matrix_complete market_areas_arg locations_arg websites w w' :
  let self := init lower market_areas_arg locations_arg in
  let articles := (crawl_of self websites w).1 in
  let r := report_on self articles w' in
  (∀ market location,
     relevant_articles market location articles ≠ [] →
     ∃ c, market_location_matrix r !! matrix_key market location = Some c ∧
          cell_market c = market ∧ cell_location c = location ∧
          cell_article_count c
          = length (relevant_articles market location articles)) ∧
  (∀ market e,
     report_markets r !! market = Some e →
     ∃ location c,
       market_location_matrix r !! matrix_key market location = Some c ∧
       cell_market c = market ∧ cell_location c = location) ∧
  (∀ location e,
     report_locations r !! location = Some e →
     ∃ market c,
       market_location_matrix r !! matrix_key market location = Some c ∧
       cell_market c = market ∧ cell_location c = location).
Proof.
  intros self articles r.
  pose proof (fun a m l =>
                crawl_pair_cell market_areas_arg locations_arg websites w w'
                  a m l) as Hcell.
  fold self articles r in Hcell. cbn zeta in Hcell.
  split; [|split].
  - intros m l Hne.
    destruct (relevant_articles m l articles) as [|a xs] eqn:Hrel; [done|].
    assert (a ∈ relevant_articles m l articles) as Hin
      by (rewrite Hrel; left).
    apply elem_of_relevant_articles in Hin as (Ha & Hm & Hl).
    rewrite <- Hrel. by apply (Hcell a).
  - intros m e. subst r. rewrite report_markets_lookup.
    case_decide; [|done]. intros [Hne _]%stats_of_Some.
    destruct (market_articles m articles) as [|a xs] eqn:Hrow; [done|].
    assert (a ∈ market_articles m articles) as Hin by (rewrite Hrow; left).
    apply elem_of_market_articles in Hin as [Ha Hm].
    destruct (crawl_article_tagged self websites w a Ha)
      as (_ & [l Hl] & _).
    destruct (Hcell a m l Ha Hm Hl) as (c & Hc & Hcm & Hcl & _).
    by exists l, c.
  - intros l e. subst r. rewrite report_locations_lookup.
    case_decide; [|done]. intros [Hne _]%stats_of_Some.
    destruct (location_articles l articles) as [|a xs] eqn:Hcol; [done|].
    assert (a ∈ location_articles l articles) as Hin by (rewrite Hcol; left).
    apply elem_of_location_articles in Hin as [Ha Hl].
    destruct (crawl_article_tagged self websites w a Ha)
      as ([m Hm] & _).
    destruct (Hcell a m l Ha Hm Hl) as (c & Hc & Hcm & Hcl & _).
    by exists m, c.
Qed.

Lemma run_analysis_unfold websites w :
  (run_analysis_of websites w).1 =
  match (crawl_of (init lower MARKET_AREAS LOCATIONS) websites w).1 with
  | [] => None
  | _ :: _ =>
      Some (report_on (init lower MARKET_AREAS LOCATIONS)
              (crawl_of (init lower MARKET_AREAS LOCATIONS) websites w).1
              (crawl_of (init lower MARKET_AREAS LOCATIONS) websites w).2)
  end.
Proof.
  unfold run_analysis, report_of, generate_market_report.
  destruct (crawl_of (init lower MARKET_AREAS LOCATIONS) websites w)
    as [[|a0 rest] w1]; simpl; [done|].
  by destruct (now w1).
Qed.

(** X12. [run_analysis] gives no report exactly when the crawl finds no
    article. A report it gives counts the articles of the crawl, at least
    one, and has at least one record in each of its three mappings. *)
Theorem run_analysis_outcome websites w :
  let self := init lower MARKET_AREAS LOCATIONS in
  ((run_analysis_of websites w).1 = None ↔
   (crawl_of self websites w).1 = []) ∧
  (∀ r,
     (run_analysis_of websites w).1 = Some r →
     total_articles r = length (crawl_of self websites w).1 ∧
     1 ≤ total_articles r ∧
     (∃ market e, report_markets r !! market = Some e) ∧
     (∃ location e, report_locations r !! location = Some e) ∧
     (∃ k c, market_location_matrix r !! k = Some c)).
Proof.
  intros self. rewrite run_analysis_unfold. fold self.
  destruct (crawl_of self websites w).1 as [|a0 rest] eqn:Hcrawl.
  { split; [done|]. intros r. discriminate. }
  split; [split; discriminate|]. intros r [= <-].
  assert (a0 ∈ (crawl_of self websites w).1) as Ha0
    by (rewrite Hcrawl; left).
  destruct (crawl_article_tagged self websites w a0 Ha0)
    as ([m0 Hm0] & [l0 Hl0] & Htm & Htl).
  destruct (Htm m0 Hm0) as [Hmt _]. destruct (Htl l0 Hl0) as [Hlt _].
  destruct (crawl_pair_cell MARKET_AREAS LOCATIONS websites w
              (crawl_of self websites w).2 a0 m0 l0 Ha0 Hm0 Hl0)
    as (c & Hc & _).
  fold self in Hc. rewrite Hcrawl in Hc.
  set (r := report_on self (a0 :: rest) (crawl_of self websites w).2) in *.
  destruct (report_of_fields W datetime now isoformat self (a0 :: rest)
              (crawl_of self websites w).2) as (Htotal & _).
  fold r in Htotal. rewrite Htotal. simpl.
  split; [done|]. split; [lia|].
  rewrite Hcrawl in Ha0.
  split; [|split].
  - exists m0. subst r. rewrite report_markets_lookup, decide_True by done.
    destruct (stats_of (market_articles m0 (a0 :: rest))) as [e|] eqn:He;
      [by exists e|].
    apply stats_of_None in He.
    assert (a0 ∈ market_articles m0 (a0 :: rest)) as Hin
      by by apply elem_of_market_articles.
    rewrite He in Hin. by apply elem_of_nil in Hin.
  - exists l0. subst r. rewrite report_locations_lookup, decide_True by done.
    destruct (stats_of (location_articles l0 (a0 :: rest))) as [e|] eqn:He;
      [by exists e|].
    apply stats_of_None in He.
    assert (a0 ∈ location_articles l0 (a0 :: rest)) as Hin
      by by apply elem_of_location_articles.
    rewrite He in Hin. by apply elem_of_nil in Hin.
  - by exists (matrix_key m0 l0), c.
Qed.

End CrawlReports.

(** ** The whole pipeline *)

Section CrawlBounds.

Variable lower : str -> str.
Variables W datetime : Type.
Variable now : W -> datetime * W.
Variable fetch : str -> W -> option str * W.
Variable extract_text_from_html : str -> str.
Variable extract : str -> str -> list ArticleData.
Variable sentiment : str -> Q.

Abbreviation site_articles :=
  (analyze_website lower W datetime now fetch extract_text_from_html
     extract sentiment).
Abbreviation crawl_articles :=
  (crawl lower W datetime now fetch extract_text_from_html extract
     sentiment).

Lemma analyze_website_unfetched self site w :
  truthy (fetch site w).1 = false →
  site_articles self site w = ([], (fetch site w).2).
Proof.
  unfold analyze_website. destruct (fetch site w) as [o w1]. simpl.
  by intros ->.
Qed.

Lemma crawl_cons self site sites w :
  crawl_articles self (site :: sites) w =
  ((site_articles self site w).1
     ++ (crawl_articles self sites (site_articles self site w).2).1,
   (crawl_articles self sites (site_articles self site w).2).2).
Proof.
  unfold crawl at 1. cbn [foldl].
  destruct (site_articles self site w) as [articles w1].
  by rewrite crawl_loop_acc.
Qed.

Lemma analyze_website_length self site w (n : nat) :
  (∀ html url, length (extract html url) ≤ n) →
  length (site_articles self site w).1 ≤ n.
Proof.
  intros Hn. unfold analyze_website. destruct (fetch site w) as [o w1].
  destruct (truthy o); simpl; [|lia].
  destruct (analyze_loop_sublist lower W datetime now fetch
              extract_text_from_html sentiment self
              (extract (default [] o) site) [] w1) as (extra & -> & Hsub).
  apply sublist_length in Hsub. rewrite !length_fmap in Hsub.
  simpl. specialize (Hn (default [] o) site). lia.
Qed.

Lemma crawl_length self sites w (n : nat) :
  (∀ html url, length (extract html url) ≤ n) →
  length (crawl_articles self sites w).1 ≤ n * length sites.
Proof.
  intros Hn. revert w. induction sites as [|site sites IH]; intros w.
  - simpl. lia.
  - rewrite crawl_cons. simpl. rewrite length_app.
    pose proof (analyze_website_length self site w n Hn).
    specialize (IH (site_articles self site w).2). lia.
Qed.

(** The score of an article of a crawl is the score of some text. *)
Lemma crawl_article_score self sites w (a : NewsArticle datetime) :
  a ∈ (crawl_articles self sites w).1 →
  ∃ text, sentiment_score a = sentiment text.
Proof.
  intros (ad & text & w0 & w1 & Hc)%crawl_elem.
  destruct (classify_Some _ _ _ _ _ _ _ _ _ _ _ Hc)
    as (_ & _ & _ & _ & _ & Hs).
  by exists text.
Qed.

End CrawlBounds.

Section FullPipeline.

Variable lower : str -> str.
Variables W datetime : Type.
Variable now : W -> datetime * W.
Variable isoformat : datetime -> str.
Variable session_get : str -> W -> option Response * W.
Variable extract_text_from_html : str -> str.
Variable select : str -> str -> list Element.
Variable strip : str -> str.
Variable urljoin : str -> str -> str.
Variable polarity : str -> option Q.

(** The pipeline with every helper of [main.py] in its place. *)
Abbreviation full_site :=
  (analyze_website lower W datetime now (fetch_page session_get)
     extract_text_from_html (extract_articles_from_page select strip urljoin)
     (analyze_sentiment polarity)).
Abbreviation full_crawl :=
  (crawl lower W datetime now (fetch_page session_get)
     extract_text_from_html (extract_articles_from_page select strip urljoin)
     (analyze_sentiment polarity)).
Abbreviation full_run :=
  (run_analysis lower W datetime now isoformat (fetch_page session_get)
     extract_text_from_html (extract_articles_from_page select strip urljoin)
     (analyze_sentiment polarity)).
Abbreviation full_report := (report_of W datetime now isoformat).

Lemma fetch_page_failed site w :
  (session_get site w).1 = None ∨
  (∃ response, (session_get site w).1 = Some response ∧
               status response ≠ 200) →
  fetch_page session_get site w = (None, (session_get site w).2).
Proof.
  unfold fetch_page.
  destruct (session_get site w) as [[response|] w1]; simpl.
  - intros [?|(response' & [= <-] & Hs)]; [done|].
    by rewrite (proj2 (Nat.eqb_neq _ _) Hs).
  - done.
Qed.

(** X13. A site whose request raises, or is answered with a status other
    than 200, gives no article, and the crawl goes on with the other sites
    in the world the request left. *)
Theorem failed_site_is_skipped self site w :
  (session_get site w).1 = None ∨
  (∃ response, (session_get site w).1 = Some response ∧
               status response ≠ 200) →
  analyze_website lower W datetime now (fetch_page session_get)
    extract_text_from_html (extract_articles_from_page select strip urljoin)
    (analyze_sentiment polarity) self site w
  = ([], (session_get site w).2) ∧
  (∀ sites,
     crawl lower W datetime now (fetch_page session_get)
       extract_text_from_html
       (extract_articles_from_page select strip urljoin)
       (analyze_sentiment polarity) self (site :: sites) w
     = crawl lower W datetime now (fetch_page session_get)
         extract_text_from_html
         (extract_articles_from_page select strip urljoin)
         (analyze_sentiment polarity) self sites (session_get site w).2).
Proof.
  intros Hfail%fetch_page_failed.
  assert (full_site self site w = ([], (session_get site w).2)) as Hsite.
  { rewrite analyze_website_unfetched; by rewrite Hfail. }
  split; [done|]. intros sites. rewrite crawl_cons, Hsite. simpl.
  by destruct (full_crawl self sites (session_get site w).2).
Qed.

(** X14. A site gives at most 20 articles and a crawl at most 20 for each
    of its sites. *)
Theorem at_most_twenty_per_site self :
  (∀ site w,
     length (analyze_website lower W datetime now (fetch_page session_get)
               extract_text_from_html
               (extract_articles_from_page select strip urljoin)
               (analyze_sentiment polarity) self site w).1 ≤ 20) ∧
  (∀ sites w,
     length (crawl lower W datetime now (fetch_page session_get)
               extract_text_from_html
               (extract_articles_from_page select strip urljoin)
               (analyze_sentiment polarity) self sites w).1
     ≤ 20 * length sites).
Proof.
  assert (∀ html url,
            length (extract_articles_from_page select strip urljoin html url)
            ≤ 20) as Hn.
  { intros html url. unfold extract_articles_from_page.
    rewrite length_take. lia. }
  split.
  - intros site w. by apply analyze_website_length.
  - intros sites w. by apply crawl_length.
Qed.

(** X15. When the polarity of every text is in [-1, 1], every article of a
    crawl has a score between 0 and 100, and every average of the report
    of [run_analysis] is between 0 and 100. *)
Theorem scores_and_averages_in_range :
  (∀ text p, polarity text = Some p → (-1 <= p)%Q ∧ (p <= 1)%Q) →
  (∀ self sites w a,
     a ∈ (crawl lower W datetime now (fetch_page session_get)
            extract_text_from_html
            (extract_articles_from_page select strip urljoin)
            (analyze_sentiment polarity) self sites w).1 →
     (0 <= sentiment_score a)%Q ∧ (sentiment_score a <= 100)%Q) ∧
  (∀ websites w r,
     (run_analysis lower W datetime now isoformat (fetch_page session_get)
        extract_text_from_html
        (extract_articles_from_page select strip urljoin)
        (analyze_sentiment polarity) websites w).1 = Some r →
     (∀ market e, report_markets r !! market = Some e →
                  (0 <= average_sentiment e)%Q ∧
                  (average_sentiment e <= 100)%Q) ∧
     (∀ location e, report_locations r !! location = Some e →
                    (0 <= average_sentiment e)%Q ∧
                    (average_sentiment e <= 100)%Q) ∧
     (∀ k c, market_location_matrix r !! k = Some c →
             (0 <= cell_average_sentiment c)%Q ∧
             (cell_average_sentiment c <= 100)%Q)).
Proof.
  intros Hpolarity.
  assert (∀ self sites w a,
            a ∈ (full_crawl self sites w).1 →
            (0 <= sentiment_score a)%Q ∧ (sentiment_score a <= 100)%Q)
    as Hscore.
  { intros self sites w a [text ->]%crawl_article_score.
    apply analyze_sentiment_bounds. apply Hpolarity. }
  split; [done|]. intros websites w r Hrun.
  rewrite run_analysis_unfold in Hrun.
  destruct (full_crawl (init lower MARKET_AREAS LOCATIONS) websites w).1
    as [|a0 rest] eqn:Hcrawl; [done|].
  injection Hrun as <-.
  apply (report_averages_bounds W datetime now isoformat
           (init lower MARKET_AREAS LOCATIONS) (a0 :: rest) _ 0 100).
  intros a Ha. apply (Hscore (init lower MARKET_AREAS LOCATIONS) websites w).
  by rewrite Hcrawl.
Qed.

End FullPipeline.

(** ** The summaries of the articles *)

Lemma articles_summary_from {datetime : Type}
    (all_articles : list (NewsArticle datetime)) (acc : list ArticleSummary) :
  foldl (fun articles_data article =>
           articles_data ++ [article_summary article]) acc all_articles
  = acc ++ (article_summary <$> all_articles).
Proof.
  revert acc. induction all_articles as [|a xs IH]; intros acc.
  - simpl. by rewrite app_nil_r.
  - cbn [foldl]. rewrite IH, fmap_cons, <- app_assoc. done.
Qed.

(** X16. [articles_data] has one summary for each article, in the order of
    the articles. The preview of a summary is the content itself when the
    content has at most 200 characters, and otherwise its first 200
    characters followed by three dots; it never has more than 203
    characters. *)
Theorem summaries_of_articles {datetime : Type}
    (all_articles : list (NewsArticle datetime)) :
  articles_summary all_articles = article_summary <$> all_articles ∧
  length (articles_summary all_articles) = length all_articles ∧
  (∀ i a,
     all_articles !! i = Some a →
     ∃ s, articles_summary all_articles !! i = Some s ∧
          summary_title s = title a ∧ summary_url s = url a ∧
          summary_market_areas s = market_areas a ∧
          summary_locations s = locations a ∧
          summary_sentiment_score s = sentiment_score a ∧
          length (summary_content_preview s) ≤ 203 ∧
          (length (content a) ≤ 200 →
           summary_content_preview s = content a) ∧
          (200 < length (content a) →
           summary_content_preview s = take 200 (content a) ++ lit "..." ∧
           length (summary_content_preview s) = 203)).
Proof.
  assert (articles_summary all_articles = article_summary <$> all_articles)
    as Hmap by apply (articles_summary_from all_articles []).
  split; [done|]. rewrite Hmap. split; [by rewrite length_fmap|].
  intros i a Hi. exists (article_summary a).
  split; [by rewrite list_lookup_fmap, Hi|].
  do 5 (split; [done|]). simpl. unfold content_preview.
  destruct (Nat.ltb_spec 200 (length (content a))) as [Hlong|Hshort].
  - assert (length (take 200 (content a) ++ lit "...") = 203) as Hlen.
    { rewrite length_app, length_take.
      change (length (lit "...")) with 3. lia. }
    split; [lia|]. split; [lia | done].
  - split; [lia|]. split; [done | lia].
Qed.

(** ** The further properties on concrete inputs *)

(** X1, at a text of polarity 0.6. *)
Lemma analyze_sentiment_range_witness :
  demo_polarity (lit "va bene") = Some (3 # 5)%Q ∧
  (0 <= analyze_sentiment demo_polarity (lit "va bene"))%Q ∧
  (analyze_sentiment demo_polarity (lit "va bene") <= 100)%Q ∧
  analyze_sentiment demo_polarity (lit "va bene") = 80%Q.
Proof.
  split; [by vm_compute|].
  destruct (analyze_sentiment_range demo_polarity (lit "va bene"))
    as (Hrange & _).
  destruct Hrange as (Hlo & Hhi & _).
  { intros p Hp. vm_compute in Hp. injection Hp as <-. split; discriminate. }
  split; [exact Hlo|]. split; [exact Hhi | by vm_compute].
Defined.

(** X3, at three articles with scores 60, 60 and 60.01. *)
Lemma trend_agrees_with_average_witness :
  let e := mkStats 3 60 (lit "positive") in
  report_markets (demo_report shipped rounding_articles 0)
    !! lit "tecnologia" = Some e ∧
  (60 <= average_sentiment e)%Q.
Proof.
  intros e.
  assert (report_markets (demo_report shipped rounding_articles 0)
            !! lit "tecnologia" = Some e) as He by by vm_compute.
  split; [exact He|].
  destruct (trend_agrees_with_average nat nat demo_now demo_isoformat
              shipped rounding_articles 0) as (Hm & _).
  destruct (Hm _ _ He) as (Hpos & _). by apply Hpos.
Defined.

(** X4, at the record of (tecnologia, usa). *)
Lemma counts_consistent_witness :
  let r := demo_report shipped mean_articles 0 in
  ∃ c em el,
    market_location_matrix r !! matrix_key (lit "tecnologia") (lit "usa")
    = Some c ∧
    report_markets r !! lit "tecnologia" = Some em ∧
    report_locations r !! lit "usa" = Some el ∧
    cell_article_count c = 1 ∧
    cell_article_count c ≤ article_count em ∧
    cell_article_count c ≤ article_count el.
Proof.
  intros r.
  assert (market_location_matrix r !! matrix_key (lit "tecnologia") (lit "usa")
          = Some (mkCell (lit "tecnologia") (lit "usa") 1 40 (lit "neutral")))
    as Hc by by vm_compute.
  destruct (counts_consistent nat nat demo_now demo_isoformat shipped
              mean_articles 0) as (_ & _ & _ & Hx).
  destruct (Hx _ _ Hc) as (em & el & Hem & Hel & Hrow & Hcol & _).
  exists (mkCell (lit "tecnologia") (lit "usa") 1 40 (lit "neutral")), em, el.
  split; [exact Hc|]. split; [exact Hem|]. split; [exact Hel|].
  split; [done|]. split; [exact Hrow | exact Hcol].
Defined.

(** X5, at an article on a market that is not tracked. *)
Lemma nothing_to_report_witness :
  report_markets (demo_report shipped sport_articles 0) = ∅ ∧
  market_location_matrix (demo_report shipped sport_articles 0) = ∅ ∧
  is_Some (report_locations (demo_report shipped sport_articles 0)
             !! lit "italia").
Proof.
  destruct (nothing_to_report nat nat demo_now demo_isoformat shipped 0)
    as (Hm & _).
  destruct (Hm sport_articles) as [H1 H2].
  { intros a market Ha Hmarket Hin. unfold sport_articles in Ha.
    apply list_elem_of_singleton in Ha. subst a. simpl in Hin.
    apply list_elem_of_singleton in Hin. subst market.
    revert Hmarket. by_computation. }
  split; [exact H1|]. split; [exact H2|]. vm_compute. by eexists.
Defined.

(** X6, at the crawler of [main.py] and the crawler of [run_crawler.py]. *)
Lemma tagger_order_and_size_witness :
  let text := lit "Case e auto: il mercato immobiliare in Italia" in
  find_market_areas latin_lower main_crawler text = [lit "automotive"] ∧
  find_market_areas latin_lower shipped text
  = [lit "automotive"; lit "immobiliare"] ∧
  find_market_areas latin_lower main_crawler text
    `sublist_of` find_market_areas latin_lower shipped text.
Proof.
  intros text. split; [by vm_compute|]. split; [by vm_compute|].
  destruct (tagger_order_and_size latin_lower text) as (_ & Hmono & _).
  apply Hmono; [done|]. by_computation.
Defined.

(** X7, at a site that is down and at a site with one candidate. *)
Lemma articles_from_candidates_witness :
  demo_analyze_website shipped (lit "down") 0 = ([], 0) ∧
  length (demo_analyze_website shipped (lit "Tech in Italia") 0).1 ≤ 1.
Proof.
  destruct (articles_from_candidates latin_lower nat nat demo_now
              demo_fetch_page demo_extract_text demo_extract_articles
              demo_sentiment shipped (lit "down") 0) as (Hdown & _).
  destruct (articles_from_candidates latin_lower nat nat demo_now
              demo_fetch_page demo_extract_text demo_extract_articles
              demo_sentiment shipped (lit "Tech in Italia") 0) as (_ & Hup).
  split.
  - apply Hdown. by vm_compute.
  - destruct (Hup (lit "Tech in Italia")) as (_ & Hlen); [by vm_compute|].
    exact Hlen.
Defined.

(** X8, at a crawl whose first site is down. *)
Lemma crawl_composes_witness :
  demo_crawl shipped [lit "down"; lit "Tech in Italia"] 0
  = demo_crawl shipped [lit "Tech in Italia"] 0 ∧
  length (demo_crawl shipped [lit "down"; lit "Tech in Italia"] 0).1 = 1.
Proof.
  destruct (crawl_composes latin_lower nat nat demo_now demo_fetch_page
              demo_extract_text demo_extract_articles demo_sentiment
              shipped 0) as (_ & _ & _ & Hskip).
  split; [|by vm_compute].
  apply (Hskip (lit "down") [lit "Tech in Italia"]). by vm_compute.
Defined.

(** X9, at a page with one link and one article whose heading is not a
    link. *)
Lemma candidates_of_page_witness :
  ∃ d, demo_candidates (lit "  ciao  ") (lit "base") = [d] ∧
       data_title d = lit "ciao" ∧
       data_title d ≠ [] ∧ length (data_content d) ≤ 500.
Proof.
  exists (mkArticleData (lit "ciao") (lit "  ciao  ") (lit "ciao")).
  assert (demo_candidates (lit "  ciao  ") (lit "base")
          = [mkArticleData (lit "ciao") (lit "  ciao  ") (lit "ciao")])
    as Hrun by by vm_compute.
  split; [exact Hrun|]. split; [done|].
  destruct (candidates_of_page demo_select demo_strip demo_urljoin
              (lit "  ciao  ") (lit "base")) as (_ & Helem & _).
  destruct (Helem (mkArticleData (lit "ciao") (lit "  ciao  ") (lit "ciao")))
    as (Htitle & Hlen & _).
  { unfold demo_candidates in Hrun. rewrite Hrun. left. }
  split; [exact Htitle | exact Hlen].
Defined.

(** X10, at a response whose text cannot be decoded. *)
Lemma fetch_page_outcome_witness :
  (fetch_page demo_session_get (lit "latin") 0).1 = Some [99%N; 232%N] ∧
  ∃ response,
    (demo_session_get (lit "latin") 0).1 = Some response ∧
    status response = 200.
Proof.
  assert ((fetch_page demo_session_get (lit "latin") 0).1
          = Some [99%N; 232%N]) as Hpage by by vm_compute.
  split; [exact Hpage|].
  destruct (fetch_page_outcome demo_session_get (lit "latin") 0)
    as (_ & Hsome & _).
  destruct (Hsome _ Hpage) as (response & Hget & Hstatus & _).
  by exists response.
Defined.

(** X11, at a crawl of one site. *)
Lemma crawl_matrix_complete_witness :
  let articles := (demo_crawl shipped [lit "Tech in Italia"] 0).1 in
  relevant_articles (lit "tecnologia") (lit "italia") articles ≠ [] ∧
  ∃ c, market_location_matrix (demo_report shipped articles 5)
         !! matrix_key (lit "tecnologia") (lit "italia") = Some c ∧
       cell_article_count c
       = length (relevant_articles (lit "tecnologia") (lit "italia")
                   articles).
Proof.
  intros articles.
  assert (relevant_articles (lit "tecnologia") (lit "italia") articles ≠ [])
    as Hne by by vm_compute.
  split; [exact Hne|].
  destruct (crawl_matrix_complete latin_lower nat nat demo_now
              demo_isoformat demo_fetch_page demo_extract_text
              demo_extract_articles demo_sentiment MARKET_AREAS LOCATIONS
              [lit "Tech in Italia"] 0 5) as (Hcell & _).
  destruct (Hcell (lit "tecnologia") (lit "italia") Hne)
    as (c & Hc & _ & _ & Hcount).
  exists c. split; [exact Hc | exact Hcount].
Defined.

(** X12, at a run over one site. *)
Lemma run_analysis_outcome_witness :
  ∃ r, (demo_run [lit "Tech in Italia"] 0).1 = Some r ∧
       total_articles r = 1 ∧ 1 ≤ total_articles r.
Proof.
  destruct (demo_run [lit "Tech in Italia"] 0).1 as [r|] eqn:Hr;
    [|by vm_compute in Hr].
  exists r. split; [done|].
  destruct (run_analysis_outcome latin_lower nat nat demo_now
              demo_isoformat demo_fetch_page demo_extract_text
              demo_extract_articles demo_sentiment
              [lit "Tech in Italia"] 0) as (_ & Hsome).
  destruct (Hsome r Hr) as (Htotal & Hge & _).
  split; [|exact Hge]. rewrite Htotal. by vm_compute.
Defined.

(** X13, at a site answered with status 404. *)
Lemma failed_site_is_skipped_witness :
  (∃ response, (demo_session_get (lit "missing") 0).1 = Some response ∧
               status response ≠ 200) ∧
  demo_full_site shipped (lit "missing") 0 = ([], 1).
Proof.
  assert (∃ response, (demo_session_get (lit "missing") 0).1 = Some response ∧
                      status response ≠ 200) as Hfail.
  { eexists. split; [by vm_compute|]. by vm_compute. }
  split; [exact Hfail|].
  destruct (failed_site_is_skipped latin_lower nat nat demo_now
              demo_session_get demo_extract_text demo_select demo_strip
              demo_urljoin demo_polarity shipped (lit "missing") 0
              (or_intror Hfail)) as (Hsite & _).
  exact Hsite.
Defined.

Lemma demo_polarity_range (text : str) (p : Q) :
  demo_polarity text = Some p → (-1 <= p)%Q ∧ (p <= 1)%Q.
Proof.
  unfold demo_polarity. destruct text as [|c text]; [done|].
  destruct (str_in (lit "bene") _); [intros [= <-]; split; discriminate|].
  destruct (str_in (lit "male") _); intros [= <-]; split; discriminate.
Qed.

(** X15, at the article of one site. *)
Lemma scores_and_averages_in_range_witness :
  ∃ a, (demo_full_crawl shipped [lit "Tech in Italia va bene"] 0).1 = [a] ∧
       sentiment_score a = 80%Q ∧
       (0 <= sentiment_score a)%Q ∧ (sentiment_score a <= 100)%Q.
Proof.
  assert (∃ a,
            (demo_full_crawl shipped [lit "Tech in Italia va bene"] 0).1
            = [a] ∧ sentiment_score a = 80%Q) as (a & Hrun & Hscore).
  { eexists. split; by vm_compute. }
  exists a. split; [exact Hrun|]. split; [exact Hscore|].
  destruct (scores_and_averages_in_range latin_lower nat nat demo_now
              demo_isoformat demo_session_get demo_extract_text demo_select
              demo_strip demo_urljoin demo_polarity demo_polarity_range)
    as (Hin & _).
  apply (Hin shipped [lit "Tech in Italia va bene"] 0).
  unfold demo_full_crawl, demo_candidates in Hrun. rewrite Hrun. left.
Defined.

(** X16, at an article whose content has 1000 characters. *)
Lemma summaries_of_articles_witness :
  length (content long_article) = 1000 ∧
  ∃ s, articles_summary [long_article] !! 0 = Some s ∧
       length (summary_content_preview s) = 203.
Proof.
  assert (length (content long_article) = 1000) as Hlen by by vm_compute.
  split; [exact Hlen|].
  destruct (summaries_of_articles [long_article]) as (_ & _ & Hsum).
  destruct (Hsum 0 long_article eq_refl)
    as (s & Hs & _ & _ & _ & _ & _ & _ & _ & Hlong).
  exists s. split; [exact Hs|]. apply Hlong. rewrite Hlen. lia.
Defined.

(** ** The cleaned text of a page *)

Abbreviation dsp := (str_in [32%N; 32%N]).

Lemma dsp_cons (c : N) (s : str) :
  dsp (c :: s) = (N.eqb c 32 && is_space32 (head s)) || dsp s.
Proof.
  cbn [str_in startswith].
  destruct (N.eqb_spec 32 c) as [<-|Hc].
  - rewrite N.eqb_refl. destruct s as [|d s]; [done|].
    cbn [head is_space32 andb].
    destruct (N.eqb_spec 32 d) as [<-|Hd]; [by rewrite N.eqb_refl|].
    by rewrite (proj2 (N.eqb_neq d 32)) by congruence.
  - by rewrite (proj2 (N.eqb_neq c 32)) by congruence.
Qed.

Lemma dsp_nil : dsp [] = false.
Proof. done. Qed.

Lemma dsp_app (a b : str) :
  dsp (a ++ b) = dsp a || dsp b || (is_space32 (last a) && is_space32 (head b)).
Proof.
  induction a as [|c a IH].
  - change (dsp []) with false. cbn [app last is_space32 andb orb].
    by rewrite orb_false_r.
  - rewrite <- app_comm_cons, !dsp_cons, IH.
    destruct a as [|d a].
    + change (dsp []) with false. cbn [app head last is_space32 andb orb].
      destruct (N.eqb c 32), (dsp b), (is_space32 (head b)); done.
    + rewrite last_cons_cons. cbn [app head].
      destruct (N.eqb c 32), (is_space32 (Some d)), (dsp (d :: a)), (dsp b),
        (is_space32 (last (d :: a))), (is_space32 (head b)); done.
Qed.

Lemma dsp_reverse (s : str) : dsp (reverse s) = dsp s.
Proof.
  induction s as [|c s IH]; [done|].
  rewrite reverse_cons, dsp_app, (dsp_cons c s), (dsp_cons c []), IH.
  rewrite last_reverse. change (dsp []) with false.
  cbn [head is_space32 andb orb].
  destruct (N.eqb c 32), (dsp s), (is_space32 (head s)); done.
Qed.

Section Strip.
Variable isspace : N -> bool.

Lemma lstrip_suffix (s : str) : ∃ pre, s = pre ++ lstrip isspace s.
Proof.
  induction s as [|c s [pre IH]]; [by exists []|]. simpl.
  destruct (isspace c); [|by exists []].
  exists (c :: pre). by rewrite <- app_comm_cons, <- IH.
Qed.

Lemma lstrip_head (s : str) (c : N) :
  head (lstrip isspace s) = Some c → isspace c = false.
Proof.
  induction s as [|d s IH]; [done|]. simpl.
  destruct (isspace d) eqn:Hd; [done|]. by intros [= <-].
Qed.

Lemma lstrip_last (s : str) :
  lstrip isspace s ≠ [] → last (lstrip isspace s) = last s.
Proof.
  intros Hne. destruct (lstrip_suffix s) as [pre Hs].
  rewrite Hs at 2. rewrite last_app.
  destruct (last (lstrip isspace s)) eqn:Hl; [done|].
  by apply last_None in Hl.
Qed.

Lemma lstrip_dsp (s : str) : dsp s = false → dsp (lstrip isspace s) = false.
Proof.
  destruct (lstrip_suffix s) as [pre Hs]. rewrite Hs at 1.
  rewrite dsp_app. intros H.
  apply orb_false_iff in H as [H _]. by apply orb_false_iff in H as [_ H].
Qed.

Lemma strip_dsp (s : str) : dsp s = false → dsp (strip isspace s) = false.
Proof.
  intros H. unfold strip. rewrite dsp_reverse. apply lstrip_dsp.
  rewrite dsp_reverse. by apply lstrip_dsp.
Qed.

Lemma strip_ends (s : str) :
  (∀ c, head (strip isspace s) = Some c → isspace c = false) ∧
  (∀ c, last (strip isspace s) = Some c → isspace c = false).
Proof.
  unfold strip. rewrite head_reverse, last_reverse. split.
  - intros c Hc.
    rewrite lstrip_last in Hc by (intros Hnil; by rewrite Hnil in Hc).
    rewrite last_reverse in Hc. by apply lstrip_head in Hc.
  - intros c. apply lstrip_head.
Qed.
End Strip.

Lemma dsp_singleton (c : N) : dsp [c] = false.
Proof.
  rewrite dsp_cons. change (dsp []) with false.
  cbn [head is_space32]. by rewrite andb_false_r.
Qed.

Lemma prepend_cons c pieces :
  ∃ p ps, prepend c pieces = (c :: p) :: ps ∧
          (pieces = p :: ps ∨ pieces = [] ∧ p = [] ∧ ps = []).
Proof.
  destruct pieces as [|p ps]; simpl; [exists [], [] | exists p, ps]; auto.
Qed.

Lemma split_double_space_cons (c d : N) (rest : str) :
  split_double_space (c :: d :: rest) =
  if N.eqb c 32 && N.eqb d 32 then [] :: split_double_space rest
  else prepend c (split_double_space (d :: rest)).
Proof. done. Qed.

Lemma split_double_space_spec (n : nat) (s : str) :
  length s ≤ n →
  Forall (fun p => dsp p = false) (split_double_space s) ∧
  ∃ p ps, split_double_space s = p :: ps ∧ (p = [] ∨ head p = head s).
Proof.
  revert s. induction n as [|n IH]; intros s Hlen.
  - destruct s; [|simpl in Hlen; lia]. simpl.
    split; [by constructor|]. exists [], []. auto.
  - destruct s as [|c [|d rest']].
    + simpl. split; [by constructor|]. exists [], []. auto.
    + simpl. split; [constructor; [apply dsp_singleton | done]|].
      exists [c], []. auto.
    + rewrite split_double_space_cons.
      destruct (N.eqb c 32 && N.eqb d 32) eqn:Hcd.
      * destruct (IH rest') as [Hall _]; [simpl in Hlen; lia|].
        split; [by constructor|]. exists [], (split_double_space rest'). auto.
      * destruct (IH (d :: rest')) as (Hall & p & ps & Hsplit & Hp);
          [simpl in Hlen |- *; lia|].
        rewrite Hsplit in Hall |- *. simpl.
        apply Forall_cons in Hall as [Hp0 Hps].
        split; [|exists (c :: p), ps; auto].
        constructor; [|done]. rewrite dsp_cons, Hp0, orb_false_r.
        destruct Hp as [-> | Hp]; [simpl; by rewrite andb_false_r|].
        rewrite Hp. exact Hcd.
Qed.

Lemma split_pieces_dsp (s p : str) :
  p ∈ split_double_space s → dsp p = false.
Proof.
  intros Hin. destruct (split_double_space_spec (length s) s) as [Hall _];
    [done|].
  rewrite Forall_forall in Hall. by apply Hall.
Qed.

Lemma join_tidy (isspace : N -> bool) (chunks : list str) :
  isspace 32%N = true →
  Forall (tidy isspace) chunks →
  dsp (join [32%N] chunks) = false ∧
  (∀ c, head (join [32%N] chunks) = Some c → isspace c = false) ∧
  (∀ c, last (join [32%N] chunks) = Some c → isspace c = false).
Proof.
  intros H32 Hall. induction Hall as [|chunk rest Hchunk Hrest IH].
  - simpl. split; [done|]. split; intros c; discriminate.
  - destruct Hchunk as (Hne & Hd & Hhead & Hlast).
    assert (∀ o, (∀ c, o = Some c → isspace c = false) → is_space32 o = false)
      as Hns.
    { intros [c|] Ho; [|done]. simpl. destruct (N.eqb_spec c 32) as [->|]; [|done].
      specialize (Ho _ eq_refl). congruence. }
    cbn [join]. destruct rest as [|chunk' rest']; [done|].
    destruct IH as (IHd & IHhead & IHlast).
    assert (join [32%N] (chunk' :: rest') ≠ []) as Hjne.
    { apply Forall_cons in Hrest as [(Hne' & _) _]. cbn [join].
      destruct rest'; [done|]. destruct chunk'; [done|]. done. }
    split; [|split].
    + rewrite dsp_app, Hd. cbn [app]. rewrite dsp_cons, IHd.
      rewrite (Hns (last chunk)) by done.
      rewrite (Hns (head (join [32%N] (chunk' :: rest')))) by done. done.
    + intros c. rewrite head_app. destruct chunk as [|x chunk]; [done|].
      simpl. apply Hhead.
    + intros c. rewrite last_app. cbn [app]. rewrite last_cons.
      destruct (last (join [32%N] (chunk' :: rest'))) as [y|] eqn:Hl.
      * intros [= <-]. by apply IHlast.
      * by apply last_None in Hl.
Qed.

(** X17. The cleaned text of a page never has two spaces in a row, and
    neither begins nor ends with a character that [strip] removes, provided
    the space is such a character. *)
Theorem cleaned_text (get_text : str -> str) (splitlines : str -> list str)
    (isspace : N -> bool) (html : str) :
  isspace 32%N = true →
  let text := extract_text_from_html get_text splitlines isspace html in
  str_in (lit "  ") text = false ∧
  (∀ c, head text = Some c → isspace c = false) ∧
  (∀ c, last text = Some c → isspace c = false).
Proof.
  intros H32 text. subst text. unfold extract_text_from_html.
  change (lit " ") with [32%N]. change (lit "  ") with [32%N; 32%N].
  apply join_tidy; [done|].
  apply Forall_forall. intros chunk [Hne Hin]%list_elem_of_filter.
  apply list_elem_of_In, in_flat_map in Hin as (line & _ & Hin).
  apply in_map_iff in Hin as (piece & <- & Hpiece).
  apply list_elem_of_In, split_pieces_dsp in Hpiece.
  split; [done|]. split; [by apply strip_dsp|]. apply strip_ends.
Qed.

(** X17, at a text of two lines with runs of spaces. *)
Lemma cleaned_text_witness :
  let text :=
    extract_text_from_html (fun html => html) demo_splitlines demo_isspace
      (lit "  Tech   in  " ++ [10%N] ++ lit " Italia ") in
  demo_isspace 32 = true ∧ text = lit "Tech in Italia" ∧
  str_in (lit "  ") text = false.
Proof.
  intros text. split; [done|]. split; [by vm_compute|].
  destruct (cleaned_text (fun html => html) demo_splitlines demo_isspace
              (lit "  Tech   in  " ++ [10%N] ++ lit " Italia ") eq_refl)
    as (Hd & _).
  exact Hd.
Defined.
